(** * lice: license templates, comment decoration and variable substitution

    A shallow embedding of [lice/core.py] and the properties of its
    template engine.

    Conventions of the embedding.
    - A byte string (file contents, subprocess output) is a
      [list byte]; a text string (the contents of a [StringIO]) is a
      [list N] of code points.  The module decodes the result of
      [getpass.getuser()], which is a byte string under Python 2 and a
      text string under Python 3: the [World] says which it is.
    - An exception is a value of [exn]; a call that may raise returns a
      [result].
    - What the operating system, the package resources and the [git]
      subprocess answer is read from a [World]. *)

From Stdlib Require Import NArith List Ascii String.
From Stdlib Require Strings.Byte.
From stdpp Require Import base option list strings gmap lexico sorting.

Local Open Scope N_scope.

(** ** Strings *)

Abbreviation unicode := (list N).
Abbreviation byte := Byte.byte.
Abbreviation bytes := (list Byte.byte).

(** [u "abc"] is the text literal [u'abc'], [b "abc"] the byte string. *)
Definition u (s : string) : unicode := N_of_ascii <$> list_ascii_of_string s.
Definition b (s : string) : bytes := list_byte_of_string s.
Arguments u : simpl never.
Arguments b : simpl never.

Definition LF : N := 10.
Definition SPACE : N := 32.
Definition LBRACE : N := 123.
Definition RBRACE : N := 125.

(** ** Exceptions *)

Inductive exn : Type :=
  | ValueError (msg : unicode)
  | IOError
  | KeyError (key : unicode)
  | IndexError
  | UnicodeDecodeError
  | AttributeError
  | OSError
  | CalledProcessError (returncode : N)
  | SystemExit (code : N).

Inductive result (A : Type) : Type :=
  | Ok (a : A)
  | Raise (e : exn).
Arguments Ok {A} a.
Arguments Raise {A} e.

#[global] Instance result_ret : MRet result := @Ok.
#[global] Instance result_bind : MBind result := λ A B f r,
  match r with
  | Ok a => f a
  | Raise e => Raise e
  end.

(** ** The [utf-8] codec, strict error mode

    [bytes.decode("utf-8")]: shortest forms only, code points up to
    U+10FFFF. *)

Definition continuation (x : N) : bool := (128 <=? x) && (x <=? 191).

Fixpoint utf8_decode_N (s : list N) : option unicode :=
  match s with
  | [] => Some []
  | b0 :: r0 =>
    if b0 <? 128 then cons b0 <$> utf8_decode_N r0
    else if (194 <=? b0) && (b0 <=? 223) then
      match r0 with
      | b1 :: r1 =>
        if continuation b1
        then cons ((b0 - 192) * 64 + (b1 - 128)) <$> utf8_decode_N r1
        else None
      | _ => None
      end
    else if (224 <=? b0) && (b0 <=? 239) then
      match r0 with
      | b1 :: b2 :: r2 =>
        let c := (b0 - 224) * 4096 + (b1 - 128) * 64 + (b2 - 128) in
        if continuation b1 && continuation b2 && (2048 <=? c)
        then cons c <$> utf8_decode_N r2
        else None
      | _ => None
      end
    else if (240 <=? b0) && (b0 <=? 244) then
      match r0 with
      | b1 :: b2 :: b3 :: r3 =>
        let c := (b0 - 240) * 262144 + (b1 - 128) * 4096
                 + (b2 - 128) * 64 + (b3 - 128) in
        if continuation b1 && continuation b2 && continuation b3
           && (65536 <=? c) && (c <=? 1114111)
        then cons c <$> utf8_decode_N r3
        else None
      | _ => None
      end
    else None
  end.

Definition decode (s : bytes) : result unicode :=
  match utf8_decode_N (Byte.to_N <$> s) with
  | Some t => Ok t
  | None => Raise UnicodeDecodeError
  end.

(** A string of which the program does not know the type: a byte
    string, or a text string. *)
Inductive pystr : Type :=
  | Bytes (s : bytes)
  | Text (t : unicode).

(** [org.decode("UTF-8")]: a text string of Python 3 has no [decode]. *)
Definition decode_method (org : pystr) : result unicode :=
  match org with
  | Bytes s => decode s
  | Text _ => Raise AttributeError
  end.

(** ** Lines of a file

    Iterating over a file opened in binary mode yields its lines, each
    with its terminating newline; the last one has none when the file
    does not end in a newline.  [split_lines] is that iteration over any
    character type. *)

Fixpoint split_lines {A} (is_nl : A → bool) (s : list A) : list (list A) :=
  match s with
  | [] => []
  | c :: s' =>
    if is_nl c then [c] :: split_lines is_nl s'
    else match split_lines is_nl s' with
         | [] => [[c]]
         | l :: ls => (c :: l) :: ls
         end
  end.

Definition byte_is_nl (c : byte) : bool := Byte.to_N c =? LF.
Definition readlines (data : bytes) : list bytes := split_lines byte_is_nl data.

(** ** The tables  (core.py, lines 44-53) *)

Definition LANGS : gmap unicode unicode := list_to_map
  [ (u "txt", u "text"); (u "h", u "c"); (u "hpp", u "c"); (u "c", u "c");
    (u "cc", u "c"); (u "cpp", u "c"); (u "py", u "unix"); (u "pl", u "perl");
    (u "sh", u "unix"); (u "lua", u "lua"); (u "rb", u "ruby");
    (u "js", u "c"); (u "java", u "java"); (u "f", u "fortran");
    (u "f90", u "fortran90"); (u "erl", u "erlang"); (u "html", u "html");
    (u "css", u "c"); (u "m", u "c") ].

Definition LANG_CMT : gmap unicode (list unicode) := list_to_map
  [ (u "text", [u ""; u ""; u ""]);
    (u "c", [u "/*"; u " *"; u " */"]);
    (u "unix", [u ""; u "#"; u ""]);
    (u "lua", [u "--[["; u ""; u "--]]"]);
    (u "java", [u "/**"; u " *"; u " */"]);
    (u "perl", [u "=item"; u ""; u "=cut"]);
    (u "ruby", [u "=begin"; u ""; u "=end"]);
    (u "fortran", [u "C"; u "C"; u "C"]);
    (u "fortran90", [u "!*"; u "!*"; u "!*"]);
    (u "erlang", [u "%%"; u "%"; u "%%"]);
    (u "html", [u "<!--"; u ""; u "-->"]) ].

(** [LANG_CMT[LANGS[lang]][i]] *)
Definition lang_cmt (lang : unicode) (i : nat) : result unicode :=
  match LANGS !! lang with
  | None => Raise (KeyError lang)
  | Some name =>
    match LANG_CMT !! name with
    | None => Raise (KeyError name)
    | Some cmt =>
      match cmt !! i with
      | Some s => Ok s
      | None => Raise IndexError
      end
    end
  end.

(** ** The world outside the process *)

Record World : Type := {
  (** [pkg_resources.resource_stream(__name__, name)]; [None]: no such
      resource, the call raises [IOError] *)
  resource_stream : unicode → option bytes;
  (** the list [LICENSES], computed from the resource directory when the
      module is loaded *)
  LICENSES : list unicode;
  os_path_exists : unicode → bool;
  os_path_expanduser : unicode → unicode;
  os_path_expandvars : unicode → unicode;
  os_path_abspath : unicode → unicode;
  (** [open(p, "rb")] and the bytes read; [None]: the call raises [IOError] *)
  open_rb : unicode → option bytes;
  (** [open(p, "w")]: [true] when the file is opened, and created or
      emptied; [false]: the call raises [IOError] *)
  open_w : unicode → bool;
  (** [subprocess.check_output(argv)] *)
  check_output : list bytes → result bytes;
  (** [getpass.getuser()]: a byte string under Python 2, a text string
      under Python 3 *)
  getpass_getuser : result pystr;
  (** [os.getcwd().split(os.sep)] *)
  os_getcwd_split : list unicode;
  date_today_year : N
}.

(** ** Paths and the organization  (core.py, lines 56-83) *)

Definition clean_path (w : World) (p : unicode) : unicode :=
  let p := os_path_expanduser w p in
  let p := os_path_expandvars w p in
  let p := os_path_abspath w p in
  p.

Definition is_space (c : byte) : bool :=
  let n := Byte.to_N c in (n =? 32) || ((9 <=? n) && (n <=? 13)).

(** [str.strip()] *)
Fixpoint lstrip (s : bytes) : bytes :=
  match s with
  | c :: s' => if is_space c then lstrip s' else s
  | [] => []
  end.
Definition strip (s : bytes) : bytes := reverse (lstrip (reverse (lstrip s))).

(** ['git config --get user.name'.split()] *)
Definition git_config_get_user_name : list bytes :=
  [b "git"; b "config"; b "--get"; b "user.name"].

Definition guess_organization (w : World) : result unicode :=
  org ← match stdout ← check_output w git_config_get_user_name;
               Ok (Bytes (strip stdout))
        with
        | Ok org => Ok org
        | Raise _ => getpass_getuser w
        end;
  decode_method org.

(** ** Loading a template  (core.py, lines 86-112)

    A [StringIO] is its contents; [write] appends to them. *)

Definition write (s : unicode) (content : unicode) : unicode := content ++ s.

(** The loop over the lines of the file, lines 94-96 and 108-110. *)
Fixpoint write_lines (lang : unicode) (lines : list bytes) (content : unicode)
    : result unicode :=
  match lines with
  | [] => Ok content
  | line :: lines' =>
    prefix ← lang_cmt lang 1;
    let content := write (prefix ++ u " ") content in
    text ← decode line;
    write_lines lang lines' (write text content)
  end.

(** The body of the [with] statement, lines 93-97 and 107-111: the two
    loaders run the same statements on the stream they opened. *)
Definition write_template (lang : unicode) (data : bytes) (content : unicode)
    : result unicode :=
  open ← lang_cmt lang 0;
  let content := write (open ++ [LF]) content in
  content ← write_lines lang (readlines data) content;
  close ← lang_cmt lang 2;
  Ok (write (close ++ [LF]) content).

Definition load_file_template (w : World) (path lang : unicode) : result unicode :=
  let template := [] in
  if negb (os_path_exists w path)
  then Raise (ValueError (u "path does not exist: " ++ path))
  else match open_rb w (clean_path w path) with
       | None => Raise IOError
       | Some infile => write_template lang infile template
       end.

Definition load_package_template (w : World) (license lang : unicode)
    (header : bool) : result unicode :=
  let content := [] in
  let filename :=
    if header then u "template-" ++ license ++ u "-header.txt"
    else u "template-" ++ license ++ u ".txt" in
  match resource_stream w filename with
  | None => Raise IOError
  | Some licfile => write_template lang licfile content
  end.

(** ** Variables of a template  (core.py, lines 115-122) *)

(** The class [\w] of a pattern compiled without [re.UNICODE]: the
    ASCII letters and digits and the underscore. *)
Definition is_word (c : N) : bool :=
  ((48 <=? c) && (c <=? 57)) || ((65 <=? c) && (c <=? 90))
  || (c =? 95) || ((97 <=? c) && (c <=? 122)).

(** The longest run of word characters at the head of [s], and the rest. *)
Fixpoint span_word (s : unicode) : unicode * unicode :=
  match s with
  | c :: s' =>
    if is_word c then let '(k, r) := span_word s' in (c :: k, r) else ([], s)
  | [] => ([], [])
  end.

Fixpoint strip_prefix (p s : unicode) : option unicode :=
  match p, s with
  | [], _ => Some s
  | x :: p', y :: s' => if x =? y then strip_prefix p' s' else None
  | _ :: _, [] => None
  end.

(** A match of the pattern [{{ (?P<key>\w+) }}] at the head of [s]: the
    group and what follows the match.  After the greedy [\w+] comes a
    space, which is no word character, so no shorter run can match. *)
Definition match_here (s : unicode) : option (unicode * unicode) :=
  s1 ← strip_prefix (u "{{ ") s;
  let '(key, s2) := span_word s1 in
  match key with
  | [] => None
  | _ :: _ => s3 ← strip_prefix (u " }}") s2; Some (key, s3)
  end.

(** [re.finditer] scans from left to right and resumes after a match;
    [skip] counts the characters of the last match still to pass. *)
Fixpoint finditer_from (skip : nat) (s : unicode) : list unicode :=
  match s with
  | [] => []
  | _ :: s' =>
    match skip with
    | S n => finditer_from n s'
    | O =>
      match match_here s with
      | Some (key, _) => key :: finditer_from (length key + 5) s'
      | None => finditer_from 0 s'
      end
    end
  end.

(** The groups of the matches, in the order of the text. *)
Definition finditer (s : unicode) : list unicode := finditer_from 0 s.

(** The comparison of two strings is the lexicographic one of their code
    points, [lexico] on [list N]. *)
Definition str_le (x y : unicode) : Prop := x = y ∨ lexico x y.

#[global] Instance str_le_dec (x y : unicode) : Decision (str_le x y).
Proof. unfold str_le. apply _. Defined.

Definition sorted (l : list unicode) : list unicode := merge_sort str_le l.

Definition extract_vars (template : unicode) : list unicode :=
  let keys : gset unicode :=
    foldl (λ keys key, keys ∪ {[ key ]}) ∅ (finditer template) in
  sorted (elements keys).

(** ** Rendering  (core.py, lines 125-137) *)

(** [unicode.replace(old, new)] for a non-empty [old]: the occurrences
    of [old] are found from left to right, without overlap; [skip]
    counts the characters of the last occurrence still to pass. *)
Fixpoint replace_from (old new : unicode) (skip : nat) (s : unicode) : unicode :=
  match s with
  | [] => []
  | c :: s' =>
    match skip with
    | S n => replace_from old new n s'
    | O =>
      match strip_prefix old s with
      | Some _ => new ++ replace_from old new (length old - 1) s'
      | None => c :: replace_from old new 0 s'
      end
    end
  end.

(** The empty string occurs before every character and at the end. *)
Definition replace (old new s : unicode) : unicode :=
  match old with
  | [] => new ++ (s ≫= λ c, c :: new)
  | _ :: _ => replace_from old new 0 s
  end.

(** The loop of lines 131-134 over the extracted keys. *)
Fixpoint substitute (keys : list unicode) (context : gmap unicode unicode)
    (content : unicode) : result unicode :=
  match keys with
  | [] => Ok content
  | key :: keys' =>
    match context !! key with
    | None => Raise (ValueError (key ++ u " is missing from the template context"))
    | Some value =>
      substitute keys' context (replace (u "{{ " ++ key ++ u " }}") value content)
    end
  end.

Definition generate_license (template : unicode)
    (context : gmap unicode unicode) : result unicode :=
  let content := template in
  content ← substitute (extract_vars template) context content;
  Ok (write content []).

(** ** The command line  (core.py, lines 140-240) *)

(** What the command line gives: every option is present or absent.
    The syntax of the command line and the usage text that [argparse]
    prints with an error are not part of the model. *)
Record CommandLine : Type := {
  arg_license : option unicode;
  opt_header : bool;
  opt_org : option unicode;
  opt_proj : option unicode;
  opt_template : option unicode;
  opt_year : option unicode;
  opt_language : option unicode;
  opt_file : option unicode;
  opt_vars : bool
}.

(** The namespace [args] *)
Record Namespace : Type := {
  license : option unicode;
  header : bool;
  organization : unicode;
  project : unicode;
  template_path : option unicode;
  year : unicode;
  language : unicode;
  ofile : unicode;
  list_vars : bool
}.

Definition DEFAULT_LICENSE : unicode := u "bsd3".

Definition is_digit (c : N) : bool := (48 <=? c) && (c <=? 57).

(** [re.match(r"^\d{4}$", string)]: [$] also matches before a newline
    that ends the string.  [None]: [ArgumentTypeError]. *)
Definition valid_year (s : unicode) : option unicode :=
  match s with
  | [a; b; c; d] =>
    if is_digit a && is_digit b && is_digit c && is_digit d
    then Some s else None
  | [a; b; c; d; e] =>
    if is_digit a && is_digit b && is_digit c && is_digit d && (e =? LF)
    then Some s else None
  | _ => None
  end.

(** ["%i" % n] *)
Fixpoint digits (d : Decimal.uint) : unicode :=
  match d with
  | Decimal.Nil => []
  | Decimal.D0 d => 48 :: digits d
  | Decimal.D1 d => 49 :: digits d
  | Decimal.D2 d => 50 :: digits d
  | Decimal.D3 d => 51 :: digits d
  | Decimal.D4 d => 52 :: digits d
  | Decimal.D5 d => 53 :: digits d
  | Decimal.D6 d => 54 :: digits d
  | Decimal.D7 d => 55 :: digits d
  | Decimal.D8 d => 56 :: digits d
  | Decimal.D9 d => 57 :: digits d
  end.
Definition format_i (n : N) : unicode := digits (N.to_uint n).

(** The value of an option with a default. *)
Definition or_default {A} (x : option A) (d : A) : A :=
  match x with Some v => v | None => d end.

(** [parser.parse_args()], lines 147-169.  The defaults are computed
    when the arguments are declared, [guess_organization()] among them,
    whether or not the option is given.  An error of the parser leaves
    with status 2. *)
Definition parse_args (w : World) (argv : CommandLine) : result Namespace :=
  default_org ← guess_organization w;
  let default_proj := List.last (os_getcwd_split w) [] in
  let default_year := format_i (date_today_year w) in
  match arg_license argv with
  | Some l => if decide (l ∈ LICENSES w) then Ok () else Raise (SystemExit 2)
  | None => Ok ()
  end;;
  match valid_year (or_default (opt_year argv) default_year) with
  | None => Raise (SystemExit 2)
  | Some y =>
    Ok {| license := arg_license argv;
          header := opt_header argv;
          organization := or_default (opt_org argv) default_org;
          project := or_default (opt_proj argv) default_proj;
          template_path := opt_template argv;
          year := y;
          language := or_default (opt_language argv) (u "txt");
          ofile := or_default (opt_file argv) (u "stdout");
          list_vars := opt_vars argv |}
  end.

Definition get_context (args : Namespace) : gmap unicode unicode :=
  list_to_map [ (u "year", year args);
                (u "organization", organization args);
                (u "project", project args) ].

(** What a run leaves behind: the text written to the two streams by
    the program itself, the files written, and how the run ended:
    [Ok ()] when [main] returns, [Raise (SystemExit n)] after
    [sys.exit(n)], [Raise e] for an exception nobody caught. *)
Record Outcome : Type := {
  stdout : unicode;
  stderr : unicode;
  written : list (unicode * unicode);
  status : result ()
}.

Definition exit_code (o : Outcome) : N :=
  match status o with
  | Ok () => 0
  | Raise (SystemExit n) => n
  | Raise _ => 1
  end.

Definition uncaught (e : exn) : Outcome :=
  {| stdout := []; stderr := []; written := []; status := Raise e |}.

(** The truth value of an optional string: [None] and [''] are false. *)
Definition truthy (x : option unicode) : option unicode :=
  match x with
  | Some (c :: s) => Some (c :: s)
  | _ => None
  end.

(** ["%s" % x] for an optional string *)
Definition format_s (x : option unicode) : unicode := or_default x (u "None").

(** Lines 211-219: the report of the [--vars] mode. *)
Definition vars_report (name : unicode) (var_list : list unicode)
    (context : gmap unicode unicode) : unicode :=
  match var_list with
  | [] => u "The " ++ name ++ u " license template contains no variables." ++ [LF]
  | _ :: _ =>
    u "The " ++ name
      ++ u " license template contains the following variables and defaults:"
      ++ [LF]
      ++ (var_list ≫= λ v,
            match context !! v with
            | Some x => u "  " ++ v ++ u " = " ++ x ++ [LF]
            | None => u "  " ++ v ++ [LF]
            end)
  end.

(** [license = args.license or DEFAULT_LICENSE] *)
Definition license_of (args : Namespace) : unicode :=
  or_default (truthy (license args)) DEFAULT_LICENSE.

(** Lines 183-190: the template of the header mode, or the outcome of
    the run when there is none. *)
Definition load_header_template (w : World) (args : Namespace)
    : unicode + Outcome :=
  match truthy (template_path args) with
  | Some path =>
    match load_file_template w path (language args) with
    | Ok template => inl template
    | Raise e => inr (uncaught e)
    end
  | None =>
    match load_package_template w (license_of args) (language args) true with
    | Ok template => inl template
    | Raise IOError =>
      inr {| stdout := [];
             stderr := u "Sorry, no source headers are available for "
                         ++ format_s (license args) ++ u "." ++ [LF];
             written := [];
             status := Raise (SystemExit 1) |}
    | Raise e => inr (uncaught e)
    end
  end.

(** Lines 204-207 and 225-228: the template of the other two modes. *)
Definition load_template (w : World) (args : Namespace) : result unicode :=
  match truthy (template_path args) with
  | Some path => load_file_template w path (language args)
  | None => load_package_template w (license_of args) (language args) false
  end.

Definition main (w : World) (argv : CommandLine) : Outcome :=
  match parse_args w argv with
  | Raise e => uncaught e
  | Ok args =>
    let lang := language args in
    if header args then
      (* lines 181-196 *)
      match load_header_template w args with
      | inr o => o
      | inl template =>
        match generate_license template (get_context args) with
        | Raise e => uncaught e
        | Ok content =>
          {| stdout := content; stderr := []; written := [];
             status := Raise (SystemExit 0) |}
        end
      end
    else if list_vars args then
      (* lines 200-221 *)
      let context := get_context args in
      match load_template w args with
      | Raise e => uncaught e
      | Ok template =>
        let var_list := extract_vars template in
        {| stdout :=
             vars_report (or_default (truthy (template_path args)) (license_of args))
               var_list context;
           stderr := []; written := [];
           status := Raise (SystemExit 0) |}
      end
    else
      (* lines 225-240 *)
      match load_template w args with
      | Raise e => uncaught e
      | Ok template =>
        match generate_license template (get_context args) with
        | Raise e => uncaught e
        | Ok content =>
          if decide (ofile args = u "stdout")
          then {| stdout := content; stderr := []; written := [];
                  status := Ok () |}
          else
            let output := ofile args ++ u "." ++ lang in
            if open_w w output
            then {| stdout := []; stderr := [];
                    written := [(output, content)];
                    status := Ok () |}
            else uncaught IOError
        end
      end
  end.

(** ** The notions of the specification *)

(** The placeholder of a variable, [{{ key }}]. *)
Definition token (key : unicode) : unicode := u "{{ " ++ key ++ u " }}".

(** A non-empty run of word characters. *)
Definition identifier (key : unicode) : Prop :=
  key ≠ [] ∧ Forall (λ c, is_word c = true) key.

(** The text [t] contains the placeholder of [key]. *)
Definition occurs (key t : unicode) : Prop :=
  identifier key ∧ ∃ pre post, t = pre ++ token key ++ post.

Definition no_placeholder (t : unicode) : Prop := ∀ key, ¬ occurs key t.

(** The lines of a template file, decoded: the "original line content". *)
Definition decoded_lines (data : bytes) : result (list unicode) :=
  mapM decode (readlines data).

(** The separating space as the specification words it: present only
    after a non-empty prefix. *)
Definition spec_separator (prefix : unicode) : unicode :=
  match prefix with
  | [] => []
  | _ :: _ => [SPACE]
  end.

(** The decoration as the specification words it. *)
Definition decorate_spec (open prefix close : unicode) (lines : list unicode)
    : unicode :=
  open ++ [LF]
    ++ concat ((λ line, prefix ++ spec_separator prefix ++ line) <$> lines)
    ++ close ++ [LF].

(** The decoration with a space after every prefix. *)
Definition decorate (open prefix close : unicode) (lines : list unicode)
    : unicode :=
  open ++ [LF]
    ++ concat ((λ line, prefix ++ [SPACE] ++ line) <$> lines)
    ++ close ++ [LF].

Definition strip_suffix (p s : unicode) : option unicode :=
  reverse <$> strip_prefix (reverse p) (reverse s).

Definition is_LF (c : N) : bool := c =? LF.

Definition text_lines (t : unicode) : list unicode := split_lines is_LF t.

(** Stripping a decorated text: the open marker and its line break are
    taken from the front, the close marker and its line break from the
    end, and [prefix ++ sep] from the head of every line in between.
    [None]: the text does not have that shape. *)
Definition strip_with (sep open prefix close : unicode) (t : unicode)
    : option (list unicode) :=
  t ← strip_prefix (open ++ [LF]) t;
  t ← strip_suffix (close ++ [LF]) t;
  mapM (strip_prefix (prefix ++ sep)) (text_lines t).

(** Stripping the markers of the style, with the separating space of
    the specification. *)
Definition strip_markers_spec (open prefix close : unicode) :=
  strip_with (spec_separator prefix) open prefix close.

(** Stripping the markers of the style and one space after every prefix. *)
Definition strip_markers (open prefix close : unicode) :=
  strip_with [SPACE] open prefix close.

(** What follows a maximal run of word characters is no word character. *)
Definition run_ends (r : unicode) : Prop :=
  match r with
  | [] => True
  | c :: _ => is_word c = false
  end.

(** The error of line 133. *)
Definition missing_variable (key : unicode) : exn :=
  ValueError (key ++ u " is missing from the template context").

(** The context lacks [key]. *)
Definition missing (context : gmap unicode unicode) (key : unicode) : Prop :=
  context !! key = None.

#[global] Instance missing_dec context key : Decision (missing context key).
Proof. unfold missing. apply _. Defined.

(** The replacements of the loop of lines 131-134, one key after the
    other, each in the text the one before has left. *)
Definition replace_each (keys : list unicode) (context : gmap unicode unicode)
    (content : unicode) : unicode :=
  foldl (λ content key,
           replace (token key) (default [] (context !! key)) content)
        content keys.

(** The first character of a byte string: its code point and the
    number of bytes it takes. *)
Definition utf8_char (s : list N) : option (N * nat) :=
  match s with
  | [] => None
  | b0 :: r0 =>
    if b0 <? 128 then Some (b0, 1%nat)
    else if (194 <=? b0) && (b0 <=? 223) then
      match r0 with
      | b1 :: _ =>
        if continuation b1
        then Some ((b0 - 192) * 64 + (b1 - 128), 2%nat)
        else None
      | _ => None
      end
    else if (224 <=? b0) && (b0 <=? 239) then
      match r0 with
      | b1 :: b2 :: _ =>
        let c := (b0 - 224) * 4096 + (b1 - 128) * 64 + (b2 - 128) in
        if continuation b1 && continuation b2 && (2048 <=? c)
        then Some (c, 3%nat)
        else None
      | _ => None
      end
    else if (240 <=? b0) && (b0 <=? 244) then
      match r0 with
      | b1 :: b2 :: b3 :: _ =>
        let c := (b0 - 240) * 262144 + (b1 - 128) * 4096
                 + (b2 - 128) * 64 + (b3 - 128) in
        if continuation b1 && continuation b2 && continuation b3
           && (65536 <=? c) && (c <=? 1114111)
        then Some (c, 4%nat)
        else None
      | _ => None
      end
    else None
  end.

(** The shape of the lines of a text: every line but the last ends
    with its only newline; the last one may have none, and is not
    empty. *)
Inductive lines_of {A} (is_nl : A → bool) : list (list A) → Prop :=
  | lines_of_nil : lines_of is_nl []
  | lines_of_last l :
      l ≠ [] → Forall (λ c, is_nl c = false) l → lines_of is_nl [l]
  | lines_of_cons body c ls :
      Forall (λ c, is_nl c = false) body → is_nl c = true →
      lines_of is_nl ls → lines_of is_nl ((body ++ [c]) :: ls).

(** Substitution in one pass, as the specification words it: every
    placeholder found by the scan is replaced by the value of its
    variable, and the scan resumes after the placeholder, in the text of
    the template. *)
Fixpoint substitute_once_from (skip : nat) (context : gmap unicode unicode)
    (s : unicode) : unicode :=
  match s with
  | [] => []
  | c :: s' =>
    match skip with
    | S n => substitute_once_from n context s'
    | O =>
      match match_here s with
      | Some (key, _) =>
        default (token key) (context !! key)
          ++ substitute_once_from (length key + 5) context s'
      | None => c :: substitute_once_from 0 context s'
      end
    end
  end.

Definition substitute_once (context : gmap unicode unicode) (template : unicode)
    : unicode :=
  substitute_once_from 0 context template.

(** The template a run renders: that of lines 183-190 in the header
    mode, that of lines 225-228 otherwise. *)
Definition loaded_template (w : World) (args : Namespace) : option unicode :=
  if header args then
    match load_header_template w args with
    | inl template => Some template
    | inr _ => None
    end
  else
    match load_template w args with
    | Ok template => Some template
    | Raise _ => None
    end.

(** ** A small world for the examples

    The home directory of the user is [/home/alice], the working
    directory [/work/lice], no environment variable is set; the package
    has a header template for [mit] and none for [bsd3]; [git] knows
    the user as [alice]; files can be created in the working directory
    only, which has no subdirectory. *)
Module Example.

Definition home : unicode := u "/home/alice".
Definition cwd : unicode := u "/work/lice".

Definition copyright : bytes :=
  b "Copyright {{ year }} {{ organization }}".

Definition files : gmap unicode bytes := list_to_map
  [ (u "/home/alice/header.txt", copyright ++ [Byte.x0a]);
    (u "/work/lice/notice.txt", b "For {{ project }}." ++ [Byte.x0a]);
    (u "/work/lice/draft.txt", b "{{ title }} by {{ author }}, {{ year }}") ].

Definition resources : gmap unicode bytes := list_to_map
  [ (u "template-plain.txt", copyright);
    (u "template-mit.txt", b "The MIT License" ++ [Byte.x0a] ++ copyright ++ [Byte.x0a]);
    (u "template-mit-header.txt", copyright ++ [Byte.x0a]);
    (u "template-bsd3.txt", copyright ++ [Byte.x0a]) ].

(** [~] and [~/...] name the home directory. *)
Definition expanduser (p : unicode) : unicode :=
  match p with
  | [126] => home
  | 126 :: 47 :: rest => home ++ 47 :: rest
  | _ => p
  end.

(** A variable that is not set is left as it is. *)
Definition expandvars (p : unicode) : unicode := p.

(** A relative path is joined to the working directory; the paths of
    the examples need no normalisation. *)
Definition abspath (p : unicode) : unicode :=
  match p with
  | 47 :: _ => p
  | _ => cwd ++ 47 :: p
  end.

Definition world : World :=
  {| resource_stream := λ name, resources !! name;
     LICENSES := [u "bsd3"; u "mit"; u "plain"];
     os_path_exists := λ p, bool_decide (is_Some (files !! abspath p));
     os_path_expanduser := expanduser;
     os_path_expandvars := expandvars;
     os_path_abspath := abspath;
     open_rb := λ p, files !! abspath p;
     open_w := λ p, bool_decide (47 ∉ p);
     check_output := λ _, Ok (b "alice" ++ [Byte.x0a]);
     getpass_getuser := Ok (Text (u "alice"));
     os_getcwd_split := [u ""; u "work"; u "lice"];
     date_today_year := 2024 |}.

Definition command_line : CommandLine :=
  {| arg_license := None; opt_header := false; opt_org := None;
     opt_proj := None; opt_template := None; opt_year := None;
     opt_language := None; opt_file := None; opt_vars := false |}.

(** [lice -t draft.txt] *)
Definition draft_command_line : CommandLine :=
  {| arg_license := None; opt_header := false; opt_org := None;
     opt_proj := None; opt_template := Some (u "draft.txt"); opt_year := None;
     opt_language := None; opt_file := None; opt_vars := false |}.

(** [lice --header] and [lice --header -l py mit] *)
Definition header_command_line : CommandLine :=
  {| arg_license := None; opt_header := true; opt_org := None;
     opt_proj := None; opt_template := None; opt_year := None;
     opt_language := None; opt_file := None; opt_vars := false |}.

Definition mit_header_command_line : CommandLine :=
  {| arg_license := Some (u "mit"); opt_header := true; opt_org := None;
     opt_proj := None; opt_template := None; opt_year := None;
     opt_language := Some (u "py"); opt_file := None; opt_vars := false |}.

Definition context : gmap unicode unicode :=
  list_to_map [ (u "year", u "2024"); (u "organization", u "Acme") ].

End Example.

(** ** The list of licenses  (core.py, lines 12-16) *)

(** The class [[a-z0-9_]] *)
Definition is_license_char (c : N) : bool :=
  ((97 <=? c) && (c <=? 122)) || ((48 <=? c) && (c <=? 57)) || (c =? 95).

(** The length of the longest run of characters of the class at the
    head of [s]. *)
Fixpoint run_length (s : unicode) : nat :=
  match s with
  | c :: s' => if is_license_char c then S (run_length s') else O
  | [] => O
  end.

(** [.txt] at the head of [s]: any character but a newline, then [txt]. *)
Definition dot_txt (s : unicode) : bool :=
  match s with
  | c :: r => negb (c =? LF) && bool_decide (is_Some (strip_prefix (u "txt") r))
  | [] => false
  end.

(** The greedy [[a-z0-9_]+] gives back one character after the other
    until [.txt] follows: the group is the longest part of the run,
    of [n] characters at most and one at least, that [.txt] follows. *)
Fixpoint backtrack (n : nat) (rest : unicode) : option unicode :=
  match n with
  | O => None
  | S m => if dot_txt (drop n rest) then Some (take n rest) else backtrack m rest
  end.

(** [re.match(r'template-([a-z0-9_]+).txt', file)] and the group of the
    match. *)
Definition match_license (file : unicode) : option unicode :=
  rest ← strip_prefix (u "template-") file;
  backtrack (run_length rest) rest.

(** The loop of lines 13-16 over the names [resource_listdir] gives. *)
Definition module_LICENSES (listdir : list unicode) : list unicode :=
  omap match_license (sorted listdir).

(** ** Further notions *)

(** A name of the class [[a-z0-9_]+]. *)
Definition license_name (name : unicode) : Prop :=
  name ≠ [] ∧ Forall (λ c, is_license_char c = true) name.

(** [name] stands in the file name between [template-] and [.txt]: it
    is a name of the class, and after it come one character that is no
    newline, then [txt], then anything. *)
Definition template_of (name file : unicode) : Prop :=
  license_name name
  ∧ ∃ c rest, c ≠ LF ∧ file = u "template-" ++ name ++ c :: u "txt" ++ rest.

(** A marker without brace and without newline. *)
Definition plain_marker (m : unicode) : Prop :=
  (LBRACE ∉ m) ∧ (RBRACE ∉ m) ∧ (LF ∉ m).

(** The lines the loaders write for the decoded lines of a template. *)
Definition prefixed (prefix : unicode) (texts : list unicode) : list unicode :=
  (λ line, prefix ++ [SPACE] ++ line) <$> texts.

(** A line that ends with its only line break. *)
Definition terminated (line : unicode) : Prop :=
  ∃ body, line = body ++ [LF] ∧ Forall (λ c, is_LF c = false) body.

(** A byte string without white space at either end. *)
Definition trimmed (s : bytes) : Prop :=
  match s with
  | [] => True
  | c :: _ => is_space c = false ∧ ∃ s' d, s = s' ++ [d] ∧ is_space d = false
  end.

(** The three variables of the context. *)
Definition standard_variable (key : unicode) : Prop :=
  key = u "year" ∨ key = u "organization" ∨ key = u "project".

(** A command line with other values for [--header], [--vars] and [-f]. *)
Definition with_mode (argv : CommandLine) (header vars : bool)
    (file : option unicode) : CommandLine :=
  {| arg_license := arg_license argv; opt_header := header;
     opt_org := opt_org argv; opt_proj := opt_proj argv;
     opt_template := opt_template argv; opt_year := opt_year argv;
     opt_language := opt_language argv; opt_file := file;
     opt_vars := vars |}.

(** More of the example world: a package directory, a [git] with
    another answer, and no [git] at all. *)
Module Scenario.

Definition listdir : list unicode :=
  [ u "template-mit.txt"; u "__init__.py"; u "template-mit-header.txt";
    u "template-bsd3.txt"; u "template-gpl_3.txt.orig"; u "core.py" ].

Definition git_world (answer : result bytes) : World :=
  {| resource_stream := resource_stream Example.world;
     LICENSES := LICENSES Example.world;
     os_path_exists := os_path_exists Example.world;
     os_path_expanduser := os_path_expanduser Example.world;
     os_path_expandvars := os_path_expandvars Example.world;
     os_path_abspath := os_path_abspath Example.world;
     open_rb := open_rb Example.world;
     open_w := open_w Example.world;
     check_output := λ _, answer;
     getpass_getuser := getpass_getuser Example.world;
     os_getcwd_split := os_getcwd_split Example.world;
     date_today_year := date_today_year Example.world |}.

(** [git] is not installed, and [getpass.getuser()] gives [user]. *)
Definition no_git_world (user : result pystr) : World :=
  {| resource_stream := resource_stream Example.world;
     LICENSES := LICENSES Example.world;
     os_path_exists := os_path_exists Example.world;
     os_path_expanduser := os_path_expanduser Example.world;
     os_path_expandvars := os_path_expandvars Example.world;
     os_path_abspath := os_path_abspath Example.world;
     open_rb := open_rb Example.world;
     open_w := open_w Example.world;
     check_output := λ _, Raise OSError;
     getpass_getuser := user;
     os_getcwd_split := os_getcwd_split Example.world;
     date_today_year := date_today_year Example.world |}.

(** A world whose package has a template that is no UTF-8 in its
    second line. *)
Definition latin1_world : World :=
  {| resource_stream := λ name,
       if decide (name = u "template-old.txt")
       then Some (b "License" ++ [Byte.x0a; Byte.xa9] ++ b " 2024" ++ [Byte.x0a])
       else None;
     LICENSES := [u "old"];
     os_path_exists := λ _, true;
     os_path_expanduser := λ p, p;
     os_path_expandvars := λ p, p;
     os_path_abspath := λ p, p;
     open_rb := λ _,
       Some (b "License" ++ [Byte.x0a; Byte.xa9] ++ b " 2024" ++ [Byte.x0a]);
     open_w := λ _, true;
     check_output := λ _, Ok (b "alice" ++ [Byte.x0a]);
     getpass_getuser := Ok (Text (u "alice"));
     os_getcwd_split := [u ""; u "work"];
     date_today_year := 2024 |}.

(** [lice -o Acme] *)
Definition acme_command_line : CommandLine :=
  {| arg_license := None; opt_header := false; opt_org := Some (u "Acme");
     opt_proj := None; opt_template := None; opt_year := None;
     opt_language := None; opt_file := None; opt_vars := false |}.

(** [lice -t notice.txt], to which the examples add options. *)
Definition notice_command_line : CommandLine :=
  {| arg_license := None; opt_header := false; opt_org := None;
     opt_proj := None; opt_template := Some (u "notice.txt"); opt_year := None;
     opt_language := None; opt_file := None; opt_vars := false |}.

End Scenario.

(** * Properties *)

(** ** Prefixes and the pattern *)

Lemma strip_prefix_Some (p s r : unicode) :
  strip_prefix p s = Some r ↔ s = p ++ r.
Proof.
  revert s. induction p as [|x p IH]; intros [|y s]; simpl.
  - split; congruence.
  - split; congruence.
  - split; discriminate.
  - destruct (N.eqb_spec x y) as [->|Hxy].
    + rewrite IH. split; congruence.
    + split; [discriminate | congruence].
Qed.

Lemma strip_prefix_app (p r : unicode) : strip_prefix p (p ++ r) = Some r.
Proof. by apply strip_prefix_Some. Qed.

Lemma strip_prefix_None_head (x c : N) (p s : unicode) :
  x ≠ c → strip_prefix (x :: p) (c :: s) = None.
Proof. intros Hne. simpl. by destruct (N.eqb_spec x c). Qed.

Lemma token_unfold (key : unicode) :
  token key = LBRACE :: LBRACE :: SPACE :: key ++ [SPACE; RBRACE; RBRACE].
Proof. reflexivity. Qed.

Lemma token_length (key : unicode) : length (token key) = S (length key + 5).
Proof. rewrite token_unfold. simpl. rewrite length_app. simpl. lia. Qed.

Lemma span_word_app (k r : unicode) :
  Forall (λ c, is_word c = true) k → run_ends r → span_word (k ++ r) = (k, r).
Proof.
  induction 1 as [|c k Hc _ IH]; intros Hr; simpl.
  - destruct r as [|c r]; [done|]. simpl in *. by rewrite Hr.
  - by rewrite Hc, IH.
Qed.

Lemma span_word_inv (s k r : unicode) :
  span_word s = (k, r) →
  s = k ++ r ∧ Forall (λ c, is_word c = true) k ∧ run_ends r.
Proof.
  revert k r. induction s as [|c s IH]; intros k r; simpl.
  - intros [= <- <-]. split; [done|]. by split; [constructor|].
  - destruct (is_word c) eqn:Hc.
    + destruct (span_word s) as [k' r'] eqn:Hs. intros [= <- <-].
      destruct (IH k' r' eq_refl) as (-> & Hk & Hr).
      split; [done|]. split; [by constructor|done].
    + intros [= <- <-]. split; [done|]. by split; [constructor|].
Qed.

(** The matcher finds the pattern at the head of [s] exactly when [s]
    starts with the placeholder of an identifier, and the group is that
    identifier. *)
Lemma match_here_spec (s key rest : unicode) :
  match_here s = Some (key, rest) ↔ identifier key ∧ s = token key ++ rest.
Proof.
  unfold match_here, identifier. split.
  - destruct (strip_prefix (u "{{ ") s) as [s1|] eqn:H1; cbn; [|by intros [=]].
    destruct (span_word s1) as [k s2] eqn:H2.
    destruct k as [|c k]; [by intros [=]|].
    destruct (strip_prefix (u " }}") s2) as [s3|] eqn:H3; cbn; [|by intros [=]].
    intros [= <- <-].
    apply strip_prefix_Some in H1 as ->. apply strip_prefix_Some in H3 as ->.
    apply span_word_inv in H2 as (-> & Hk & _).
    split; [by split|].
    unfold token. by rewrite <-!(assoc_L (++)).
  - intros [[Hne Hk] ->]. unfold token.
    rewrite <-!(assoc_L (++)), strip_prefix_app. cbn.
    rewrite (span_word_app key); [|done|done].
    destruct key as [|c k]; [done|].
    by rewrite strip_prefix_app.
Qed.

Lemma match_here_head (c : N) (s : unicode) :
  c ≠ LBRACE → match_here (c :: s) = None.
Proof.
  intros Hc. unfold match_here.
  change (u "{{ ") with [LBRACE; LBRACE; SPACE].
  rewrite strip_prefix_None_head; [done|congruence].
Qed.

(** ** The scan of [re.finditer] *)

Lemma finditer_from_drop (n : nat) (s : unicode) :
  finditer_from n s = finditer (drop n s).
Proof.
  revert n. induction s as [|c s IH]; intros [|n]; try done.
  simpl. apply IH.
Qed.

Lemma finditer_match (s key rest : unicode) :
  match_here s = Some (key, rest) → finditer s = key :: finditer rest.
Proof.
  intros H. destruct (proj1 (match_here_spec _ _ _) H) as [_ Hs].
  rewrite token_unfold in Hs. destruct s as [|c s]; [done|].
  unfold finditer at 1. cbn [finditer_from]. rewrite H.
  rewrite finditer_from_drop. do 2 f_equal.
  injection Hs as _ ->.
  change (LBRACE :: SPACE :: ?l ++ rest) with ((LBRACE :: SPACE :: l) ++ rest).
  apply drop_app_length'. simpl. rewrite length_app. simpl. lia.
Qed.

Lemma finditer_skip (c : N) (s : unicode) :
  match_here (c :: s) = None → finditer (c :: s) = finditer s.
Proof. intros H. unfold finditer at 1. cbn [finditer_from]. by rewrite H. Qed.

(** Induction along the scan: it ends at the end of the text, passes a
    match, or moves one character forward where there is none. *)
Lemma finditer_ind (P : unicode → list unicode → Prop) :
  P [] [] →
  (∀ key rest, identifier key → P rest (finditer rest) →
     P (token key ++ rest) (key :: finditer rest)) →
  (∀ c s, match_here (c :: s) = None → P s (finditer s) →
     P (c :: s) (finditer s)) →
  ∀ s, P s (finditer s).
Proof.
  intros Hnil Hmatch Hskip s.
  remember (length s) as n eqn:Hn. revert s Hn.
  induction n as [n IH] using lt_wf_ind. intros [|c s] Hn; [done|].
  destruct (match_here (c :: s)) as [[key rest]|] eqn:Hm.
  - rewrite (finditer_match _ _ _ Hm).
    apply match_here_spec in Hm as [Hid Hs]. rewrite Hs.
    apply Hmatch; [done|]. apply (IH (length rest)); [|done].
    rewrite Hn, Hs, length_app, token_length. lia.
  - rewrite (finditer_skip _ _ Hm). apply Hskip; [done|].
    apply (IH (length s)); [|done]. rewrite Hn. simpl. lia.
Qed.

Lemma is_word_not_brace (key : unicode) :
  Forall (λ c, is_word c = true) key →
  LBRACE ∉ SPACE :: key ++ [SPACE; RBRACE; RBRACE].
Proof.
  intros Hk [[=]|[Hin|Hin]%elem_of_app]%elem_of_cons.
  - rewrite Forall_forall in Hk. by apply Hk in Hin.
  - rewrite !elem_of_cons, elem_of_nil in Hin.
    by destruct Hin as [[=]|[[=]|[[=]|[]]]].
Qed.

(** Two placeholders that start at the same place are the same. *)
Lemma token_app_inj (k1 k2 r1 r2 : unicode) :
  identifier k1 → identifier k2 →
  token k1 ++ r1 = token k2 ++ r2 → k1 = k2 ∧ r1 = r2.
Proof.
  intros H1 H2 Heq.
  assert (match_here (token k1 ++ r1) = Some (k1, r1)) as Hm1
    by by apply match_here_spec.
  assert (match_here (token k1 ++ r1) = Some (k2, r2)) as Hm2
    by by apply match_here_spec.
  rewrite Hm1 in Hm2. by injection Hm2.
Qed.

(** Placeholders do not overlap: one that starts after the start of
    another starts after its end. *)
Lemma token_no_overlap (k1 k2 r pre post : unicode) :
  identifier k1 → identifier k2 → pre ≠ [] →
  token k1 ++ r = pre ++ token k2 ++ post →
  ∃ pre', pre = token k1 ++ pre' ∧ r = pre' ++ token k2 ++ post.
Proof.
  intros [_ Hk1] _ Hpre Heq.
  apply app_eq_app in Heq as [l [[H1 H2]|[H1 H2]]]; [|by exists l].
  destruct l as [|x l].
  { exists []. rewrite app_nil_r in *. by split. }
  exfalso. rewrite !token_unfold in *.
  injection H2 as <- H2.
  destruct pre as [|p0 pre]; [done|]. injection H1 as <- H1.
  destruct pre as [|p1 pre].
  - simpl in H1. injection H1 as <-. by simpl in H2.
  - injection H1 as <- H1.
    apply (is_word_not_brace k1 Hk1). rewrite H1.
    apply elem_of_app. right. by left.
Qed.

(** The scan finds exactly the placeholders of the text. *)
Lemma elem_of_finditer (key t : unicode) : key ∈ finditer t ↔ occurs key t.
Proof.
  split.
  - revert key. apply (finditer_ind (λ t l, ∀ key, key ∈ l → occurs key t)).
    + intros key Hin. by apply elem_of_nil in Hin.
    + intros k rest Hk IH key [->|Hin]%elem_of_cons.
      * split; [done|]. by exists [], rest.
      * destruct (IH _ Hin) as [Hid (pre & post & ->)].
        split; [done|]. exists (token k ++ pre), post.
        by rewrite <-(assoc_L (++)).
    + intros c s _ IH key Hin.
      destruct (IH _ Hin) as [Hid (pre & post & ->)].
      split; [done|]. by exists (c :: pre), post.
  - intros [Hid (pre & post & Ht)]. revert key pre post Hid Ht.
    apply (finditer_ind (λ t l, ∀ key pre post,
             identifier key → t = pre ++ token key ++ post → key ∈ l)).
    + intros key pre post _ Ht. symmetry in Ht.
      apply app_eq_nil in Ht as [_ Ht]. by rewrite token_unfold in Ht.
    + intros k rest Hk IH key pre post Hkey Ht.
      destruct pre as [|p pre].
      * apply token_app_inj in Ht as [-> _]; [by left|done..].
      * apply token_no_overlap in Ht as (pre' & _ & Hrest); [|done..].
        right. by apply (IH _ pre' post).
    + intros c s Hnone IH key pre post Hkey Ht.
      destruct pre as [|p pre].
      * assert (match_here (c :: s) = Some (key, post)) as Hsome
          by by apply match_here_spec.
        congruence.
      * injection Ht as _ Ht. by apply (IH _ pre post).
Qed.

Lemma finditer_nil_iff (t : unicode) : finditer t = [] ↔ no_placeholder t.
Proof.
  split.
  - intros Hnil key Hocc%elem_of_finditer. rewrite Hnil in Hocc.
    by apply elem_of_nil in Hocc.
  - intros Hno. destruct (finditer t) as [|key l] eqn:Hf; [done|].
    destruct (Hno key). apply elem_of_finditer. rewrite Hf. by left.
Qed.

(** ** The order of strings and the sorted list of variables *)

#[global] Instance str_le_refl : Reflexive str_le.
Proof. intros x. by left. Qed.

#[global] Instance str_le_trans : Transitive str_le.
Proof.
  intros x y z [->|Hxy] [->|Hyz]; [by left|by right..|].
  right. by trans y.
Qed.

#[global] Instance str_le_total : Total str_le.
Proof.
  intros x y. destruct (trichotomy lexico x y) as [?|[->|?]].
  - left. by right.
  - left. by left.
  - right. by right.
Qed.

#[global] Instance str_le_antisymm : AntiSymm (=) str_le.
Proof.
  intros x y [->|Hxy] [Heq|Hyx]; [done..|].
  destruct (irreflexivity lexico x). by trans y.
Qed.

Lemma StronglySorted_strict (l : list unicode) :
  StronglySorted str_le l → NoDup l → StronglySorted lexico l.
Proof.
  induction 1 as [|x l _ IH Hx]; intros Hnd; [constructor|].
  apply NoDup_cons in Hnd as [Hnotin Hnd].
  constructor; [by apply IH|].
  rewrite Forall_forall in *. intros y Hy.
  destruct (Hx y Hy) as [->|Hlt]; done.
Qed.

Lemma elem_of_foldl_add (l : list unicode) (keys : gset unicode) (key : unicode) :
  key ∈ foldl (λ keys key, keys ∪ {[ key ]}) keys l ↔ key ∈ keys ∨ key ∈ l.
Proof.
  revert keys. induction l as [|x l IH]; intros keys; simpl.
  - rewrite elem_of_nil. tauto.
  - rewrite IH, elem_of_union, elem_of_singleton, elem_of_cons. tauto.
Qed.

Lemma sorted_Permutation (l : list unicode) : sorted l ≡ₚ l.
Proof. apply merge_sort_Permutation. Qed.

Lemma elem_of_extract_vars (key t : unicode) :
  key ∈ extract_vars t ↔ key ∈ finditer t.
Proof.
  unfold extract_vars. rewrite sorted_Permutation, elem_of_elements.
  rewrite elem_of_foldl_add, elem_of_empty. tauto.
Qed.

Lemma NoDup_extract_vars (t : unicode) : NoDup (extract_vars t).
Proof.
  unfold extract_vars. rewrite sorted_Permutation. apply NoDup_elements.
Qed.

Lemma extract_vars_sorted (t : unicode) : StronglySorted lexico (extract_vars t).
Proof.
  apply StronglySorted_strict; [|apply NoDup_extract_vars].
  apply StronglySorted_merge_sort; apply _.
Qed.

(** A strictly increasing list is determined by its elements. *)
Lemma strictly_sorted_unique (l1 l2 : list unicode) :
  StronglySorted lexico l1 → StronglySorted lexico l2 →
  (∀ x, x ∈ l1 ↔ x ∈ l2) → l1 = l2.
Proof.
  intros H1 H2 Hiff.
  assert (∀ l : list unicode, StronglySorted lexico l → NoDup l) as Hnd.
  { induction 1 as [|x l _ IH Hx]; constructor; [|done].
    intros Hin. rewrite Forall_forall in Hx.
    by destruct (irreflexivity lexico x); apply Hx. }
  apply (StronglySorted_unique_strong lexico); [|done..|].
  - intros x y _ _ Hxy Hyx. destruct (irreflexivity lexico x). by trans y.
  - apply NoDup_Permutation; auto.
Qed.

(** ** [replace] *)

Lemma replace_from_drop (old new : unicode) (n : nat) (s : unicode) :
  replace_from old new n s = replace_from old new 0 (drop n s).
Proof.
  revert n. induction s as [|c s IH]; intros [|n]; try done.
  simpl. apply IH.
Qed.

Lemma replace_nil (old new : unicode) : old ≠ [] → replace old new [] = [].
Proof. by destruct old. Qed.

(** An occurrence is replaced, and the scan resumes after it: the text
    put in its place is not looked at. *)
Lemma replace_hit (old new rest : unicode) :
  old ≠ [] → replace old new (old ++ rest) = new ++ replace old new rest.
Proof.
  destruct old as [|x old]; [done|]. intros _. unfold replace.
  rewrite <-app_comm_cons. cbn [replace_from].
  rewrite app_comm_cons, strip_prefix_app. f_equal.
  rewrite replace_from_drop. f_equal. simpl.
  rewrite Nat.sub_0_r. apply drop_app_length.
Qed.

Lemma replace_miss (old new : unicode) (c : N) (s : unicode) :
  old ≠ [] → strip_prefix old (c :: s) = None →
  replace old new (c :: s) = c :: replace old new s.
Proof.
  destruct old as [|x old]; [done|]. intros _ Hnone. unfold replace.
  cbn [replace_from]. by rewrite Hnone.
Qed.

Lemma token_not_nil (key : unicode) : token key ≠ [].
Proof. by rewrite token_unfold. Qed.

Lemma strip_token_head (key : unicode) (c : N) (s : unicode) :
  c ≠ LBRACE → strip_prefix (token key) (c :: s) = None.
Proof.
  intros Hc. rewrite token_unfold. apply strip_prefix_None_head. congruence.
Qed.

Lemma replace_no_brace (key new s : unicode) :
  LBRACE ∉ s → replace (token key) new s = s.
Proof.
  induction s as [|c s IH]; intros Hs.
  - apply replace_nil, token_not_nil.
  - apply not_elem_of_cons in Hs as [Hc Hs].
    rewrite replace_miss; [by rewrite IH|apply token_not_nil|].
    by apply strip_token_head.
Qed.

Lemma replace_single (key new pre post : unicode) :
  LBRACE ∉ pre → LBRACE ∉ post →
  replace (token key) new (pre ++ token key ++ post) = pre ++ new ++ post.
Proof.
  intros Hpre Hpost. induction pre as [|c pre IH].
  - rewrite app_nil_l, replace_hit by apply token_not_nil.
    by rewrite replace_no_brace.
  - apply not_elem_of_cons in Hpre as [Hc Hpre].
    rewrite <-!app_comm_cons, replace_miss; [by rewrite IH|apply token_not_nil|].
    by apply strip_token_head.
Qed.

(** ** The loop of [generate_license] *)

Lemma substitute_present (keys : list unicode)
    (context : gmap unicode unicode) (content : unicode) :
  (∀ key, key ∈ keys → ¬ missing context key) →
  substitute keys context content = Ok (replace_each keys context content).
Proof.
  revert content. induction keys as [|key keys IH]; intros content Hall; [done|].
  simpl. destruct (context !! key) as [value|] eqn:Hkey.
  - rewrite IH; [done|]. intros k Hk. apply Hall. by right.
  - destruct (Hall key); [by left|done].
Qed.

(** The loop stops at the first key the context lacks; in a strictly
    increasing list that key is the least one. *)
Lemma substitute_missing (keys : list unicode)
    (context : gmap unicode unicode) (content : unicode) (key0 : unicode) :
  key0 ∈ keys → missing context key0 →
  ∃ key, substitute keys context content = Raise (missing_variable key)
         ∧ key ∈ keys ∧ missing context key
         ∧ (StronglySorted lexico keys →
            ∀ key', key' ∈ keys → missing context key' → str_le key key').
Proof.
  unfold missing. revert content.
  induction keys as [|key keys IH]; intros content Hin Hmiss.
  { by apply elem_of_nil in Hin. }
  simpl. destruct (context !! key) as [value|] eqn:Hkey.
  - apply elem_of_cons in Hin as [->|Hin]; [congruence|].
    destruct (IH (replace (u "{{ " ++ key ++ u " }}") value content) Hin Hmiss)
      as (k & Hk & Hkin & Hkmiss & Hleast).
    exists k. split; [done|]. split; [by right|]. split; [done|].
    intros Hsorted key' [->|Hin']%elem_of_cons Hmiss'; [congruence|].
    apply Hleast; [|done..]. by apply StronglySorted_inv in Hsorted as [? _].
  - exists key. split; [done|]. split; [by left|]. split; [done|].
    intros Hsorted key' [->|Hin']%elem_of_cons _; [by left|].
    apply StronglySorted_inv in Hsorted as [_ Hall].
    rewrite Forall_forall in Hall. right. by apply Hall.
Qed.

Lemma generate_license_Ok (template : unicode)
    (context : gmap unicode unicode) :
  (∀ key, key ∈ extract_vars template → ¬ missing context key) →
  generate_license template context
  = Ok (replace_each (extract_vars template) context template).
Proof.
  intros Hall. unfold generate_license.
  by rewrite substitute_present.
Qed.

(** ** Lines *)

Section lines.
Context {A : Type} (is_nl : A → bool).

Lemma split_lines_lines_of (s : list A) : lines_of is_nl (split_lines is_nl s).
Proof.
  induction s as [|c s IH]; simpl; [constructor|].
  destruct (is_nl c) eqn:Hc.
  - by apply (lines_of_cons is_nl []).
  - destruct IH as [|l Hl Hno|body c' ls Hbody Hc' Hls].
    + by apply lines_of_last; [|constructor].
    + apply lines_of_last; [done|by constructor].
    + apply (lines_of_cons is_nl (c :: body)); [by constructor|done..].
Qed.

Lemma split_lines_no_nl (l : list A) :
  l ≠ [] → Forall (λ c, is_nl c = false) l → split_lines is_nl l = [l].
Proof.
  induction 2 as [|c l Hc Hl IH]; [done|]. simpl. rewrite Hc.
  destruct l as [|c' l]; [done|]. by rewrite IH.
Qed.

Lemma split_lines_line (body : list A) (c : A) (rest : list A) :
  Forall (λ c, is_nl c = false) body → is_nl c = true →
  split_lines is_nl (body ++ c :: rest)
  = (body ++ [c]) :: split_lines is_nl rest.
Proof.
  intros Hbody Hc. induction Hbody as [|x body Hx _ IH]; simpl.
  - by rewrite Hc.
  - by rewrite Hx, IH.
Qed.

(** Splitting the concatenation of lines gives the lines back. *)
Lemma split_lines_concat (ls : list (list A)) :
  lines_of is_nl ls → split_lines is_nl (concat ls) = ls.
Proof.
  induction 1 as [|l Hl Hno|body c ls Hbody Hc _ IH]; simpl.
  - done.
  - rewrite app_nil_r. by apply split_lines_no_nl.
  - rewrite <-(assoc_L (++)). simpl. by rewrite split_lines_line, IH.
Qed.
End lines.

(** ** The codec and the newline *)

Lemma utf8_decode_N_step (s : list N) :
  utf8_decode_N s =
  match s with
  | [] => Some []
  | _ :: _ => '(c, n) ← utf8_char s; cons c <$> utf8_decode_N (drop n s)
  end.
Proof.
  destruct s as [|b0 r0]; [done|].
  cbn [utf8_decode_N utf8_char].
  destruct (b0 <? 128); [done|].
  destruct ((194 <=? b0) && (b0 <=? 223)).
  { destruct r0 as [|b1 r1]; [done|]. by destruct (continuation b1). }
  destruct ((224 <=? b0) && (b0 <=? 239)).
  { destruct r0 as [|b1 [|b2 r2]]; [done..|]. cbv zeta.
    by destruct (continuation b1 && continuation b2 && _). }
  destruct ((240 <=? b0) && (b0 <=? 244)); [|done].
  destruct r0 as [|b1 [|b2 [|b3 r3]]]; [done..|]. cbv zeta.
  by destruct (continuation b1 && continuation b2 && continuation b3 && _ && _).
Qed.

Lemma continuation_ge (x : N) : continuation x = true → 128 ≤ x.
Proof. unfold continuation. intros [H _]%andb_true_iff. by apply N.leb_le. Qed.

(** A character is one byte below 128, or a code point from 128 on
    made of bytes from 128 on; it depends on its own bytes only. *)
Lemma utf8_char_inv (s : list N) (c : N) (n : nat) :
  utf8_char s = Some (c, n) →
  (0 < n ≤ length s)%nat
  ∧ (∀ r, utf8_char (take n s ++ r) = Some (c, n))
  ∧ ((n = 1%nat ∧ c < 128 ∧ head s = Some c)
     ∨ (128 ≤ c ∧ Forall (λ x, 128 ≤ x) (take n s))).
Proof.
  destruct s as [|b0 r0]; [done|]. cbn [utf8_char].
  destruct (b0 <? 128) eqn:H0.
  { intros [= <- <-]. split; [simpl; lia|]. split.
    - intros r. simpl. by rewrite H0.
    - left. split; [done|]. split; [by apply N.ltb_lt|done]. }
  assert (128 ≤ b0) as G0 by by apply N.ltb_ge.
  destruct ((194 <=? b0) && (b0 <=? 223)) eqn:H2.
  { destruct r0 as [|b1 r1]; [done|].
    destruct (continuation b1) eqn:C1; [|done]. intros [= <- <-].
    split; [simpl; lia|]. split.
    - intros r. simpl. by rewrite H0, H2, C1.
    - apply andb_true_iff in H2 as [?%N.leb_le _].
      apply continuation_ge in C1.
      right. split; [lia|]. by repeat constructor. }
  destruct ((224 <=? b0) && (b0 <=? 239)) eqn:H3.
  { destruct r0 as [|b1 [|b2 r2]]; [done..|]. cbv zeta.
    destruct (continuation b1 && continuation b2 && _) eqn:C; [|done].
    intros [= <- <-]. split; [simpl; lia|]. split.
    - intros r. simpl. by rewrite H0, H2, H3, C.
    - apply andb_true_iff in C as [[C1 C2]%andb_true_iff ?%N.leb_le].
      apply continuation_ge in C1, C2.
      right. split; [lia|]. by repeat constructor. }
  destruct ((240 <=? b0) && (b0 <=? 244)) eqn:H4; [|done].
  destruct r0 as [|b1 [|b2 [|b3 r3]]]; [done..|]. cbv zeta.
  destruct (continuation b1 && continuation b2 && continuation b3 && _ && _)
    eqn:C; [|done].
  intros [= <- <-]. split; [simpl; lia|]. split.
  - intros r. simpl. by rewrite H0, H2, H3, H4, C.
  - apply andb_true_iff in C as [[[[C1 C2]%andb_true_iff C3]%andb_true_iff
      ?%N.leb_le]%andb_true_iff _].
    apply continuation_ge in C1, C2, C3.
    right. split; [lia|]. by repeat constructor.
Qed.

(** Decoding keeps a text without newline free of newlines, *)
Lemma utf8_decode_N_no_LF (s : list N) (t : unicode) :
  utf8_decode_N s = Some t →
  Forall (λ x, x ≠ LF) s → Forall (λ c, is_LF c = false) t.
Proof.
  remember (length s) as m eqn:Hm. revert s t Hm.
  induction m as [m IH] using lt_wf_ind. intros s t Hm.
  rewrite utf8_decode_N_step. destruct s as [|b0 r0].
  { intros [= <-] _. constructor. }
  destruct (utf8_char (b0 :: r0)) as [[c n]|] eqn:Hc; [|done]. cbn.
  destruct (utf8_decode_N (drop n (b0 :: r0))) as [t'|] eqn:Ht'; [|done].
  intros [= <-] Hs.
  apply utf8_char_inv in Hc as ([Hn1 Hn2] & _ & Hcases).
  constructor.
  - apply N.eqb_neq. destruct Hcases as [(_ & _ & [= ->])|[Hge _]].
    + by apply Forall_cons in Hs as [? _].
    + unfold LF. lia.
  - apply (IH (length (drop n (b0 :: r0)))) with (s := drop n (b0 :: r0)); [|done..|].
    + rewrite Hm, length_drop. lia.
    + by apply Forall_drop.
Qed.

(** and a final newline is the final newline of the decoded text. *)
Lemma utf8_decode_N_snoc_LF (s : list N) (t : unicode) :
  utf8_decode_N (s ++ [LF]) = Some t →
  ∃ t', utf8_decode_N s = Some t' ∧ t = t' ++ [LF].
Proof.
  remember (length s) as m eqn:Hm. revert s t Hm.
  induction m as [m IH] using lt_wf_ind. intros s t Hm.
  destruct s as [|b0 r0].
  { intros [= <-]. by exists []. }
  intros H. rewrite utf8_decode_N_step in H. rewrite utf8_decode_N_step.
  rewrite <-app_comm_cons in H at 1.
  destruct (utf8_char ((b0 :: r0) ++ [LF])) as [[c n]|] eqn:Hc; [|done]. cbn in H.
  destruct (utf8_decode_N (drop n (b0 :: r0 ++ [LF]))) as [t'|] eqn:Ht'; [|done].
  injection H as <-.
  apply utf8_char_inv in Hc as ([Hn1 Hn2] & Hdep & Hcases).
  assert (n ≤ length (b0 :: r0))%nat as Hn.
  { destruct Hcases as [(-> & _)|[_ Hall]]; [simpl; lia|].
    destruct (decide (n ≤ length (b0 :: r0))%nat) as [|Hgt]; [done|].
    rewrite take_ge in Hall by (rewrite length_app in *; simpl in *; lia).
    apply Forall_app in Hall as [_ Hall]. apply Forall_cons in Hall as [Hall _].
    unfold LF in Hall. lia. }
  change (b0 :: r0 ++ [LF]) with ((b0 :: r0) ++ [LF]) in Ht'.
  rewrite drop_app_le in Ht' by exact Hn.
  rewrite take_app_le in Hdep by exact Hn.
  specialize (Hdep (drop n (b0 :: r0))). rewrite take_drop in Hdep.
  rewrite Hdep. cbn.
  destruct (IH (length (drop n (b0 :: r0)))) with (s := drop n (b0 :: r0)) (t := t')
    as (t'' & -> & ->); [|done..|].
  { rewrite Hm, length_drop. lia. }
  by exists (c :: t'').
Qed.

Lemma utf8_decode_N_not_nil (s : list N) (t : unicode) :
  utf8_decode_N s = Some t → s ≠ [] → t ≠ [].
Proof.
  rewrite utf8_decode_N_step. destruct s as [|b0 r0]; [done|].
  destruct (utf8_char (b0 :: r0)) as [[c n]|]; [|done]. cbn.
  destruct (utf8_decode_N (drop n (b0 :: r0))) as [t'|]; [|done].
  by intros [= <-].
Qed.

(** ** The decoded lines of a file *)

Lemma decode_Ok (s : bytes) (t : unicode) :
  decode s = Ok t ↔ utf8_decode_N (Byte.to_N <$> s) = Some t.
Proof.
  unfold decode. destruct (utf8_decode_N _); split; congruence.
Qed.

Lemma readlines_lines_of (data : bytes) : lines_of byte_is_nl (readlines data).
Proof. apply split_lines_lines_of. Qed.

Lemma decode_lines_of (ls : list bytes) (texts : list unicode) :
  lines_of byte_is_nl ls → mapM decode ls = Ok texts → lines_of is_LF texts.
Proof.
  intros Hls. revert texts.
  induction Hls as [|l Hl Hno|body c ls Hbody Hc _ IH]; intros texts; cbn.
  - intros [= <-]. constructor.
  - destruct (decode l) as [t|] eqn:Ht; [|done]. cbn. intros [= <-].
    apply decode_Ok in Ht. apply lines_of_last.
    + apply (utf8_decode_N_not_nil _ _ Ht). by destruct l.
    + apply (utf8_decode_N_no_LF _ _ Ht), Forall_fmap.
      apply (Forall_impl _ _ _ Hno). intros x Hx. by apply N.eqb_neq.
  - destruct (decode (body ++ [c])) as [t|] eqn:Ht; [|done]. cbn.
    destruct (mapM decode ls) as [ts|] eqn:Hts; [|done]. cbn. intros [= <-].
    apply decode_Ok in Ht. rewrite fmap_app in Ht. cbn in Ht.
    apply N.eqb_eq in Hc. rewrite Hc in Ht.
    apply utf8_decode_N_snoc_LF in Ht as (t' & Ht' & ->).
    apply lines_of_cons; [|done|by apply IH].
    apply (utf8_decode_N_no_LF _ _ Ht'), Forall_fmap.
    apply (Forall_impl _ _ _ Hbody). intros x Hx. by apply N.eqb_neq.
Qed.

Lemma decoded_lines_lines_of (data : bytes) (texts : list unicode) :
  decoded_lines data = Ok texts → lines_of is_LF texts.
Proof. apply decode_lines_of, readlines_lines_of. Qed.

(** ** Decoration *)

Lemma write_lines_Ok (lang prefix : unicode) (lines : list bytes)
    (texts : list unicode) (content : unicode) :
  lang_cmt lang 1 = Ok prefix → mapM decode lines = Ok texts →
  write_lines lang lines content
  = Ok (content ++ concat ((λ line, prefix ++ [SPACE] ++ line) <$> texts)).
Proof.
  intros Hp. revert texts content.
  induction lines as [|line lines IH]; intros texts content; cbn.
  - intros [= <-]. cbn. by rewrite app_nil_r.
  - rewrite Hp. cbn.
    destruct (decode line) as [t|]; [|done]. cbn.
    destruct (mapM decode lines) as [ts|] eqn:Hts; [|done]. cbn.
    intros [= <-]. rewrite (IH ts); [|done]. unfold write. cbn.
    by rewrite <-!(assoc_L (++)).
Qed.

(** What the two loaders write for a stream they could open. *)
Lemma write_template_Ok (lang open prefix close : unicode) (data : bytes)
    (texts : list unicode) :
  lang_cmt lang 0 = Ok open → lang_cmt lang 1 = Ok prefix →
  lang_cmt lang 2 = Ok close → decoded_lines data = Ok texts →
  write_template lang data [] = Ok (decorate open prefix close texts).
Proof.
  intros Ho Hp Hc Ht. unfold write_template. rewrite Ho. cbn.
  rewrite (write_lines_Ok _ _ _ _ _ Hp Ht). cbn. rewrite Hc. cbn.
  unfold write, decorate. cbn. by rewrite <-!(assoc_L (++)).
Qed.

(** ** Stripping *)

Lemma strip_suffix_app (p s : unicode) : strip_suffix p (s ++ p) = Some s.
Proof.
  unfold strip_suffix. rewrite reverse_app, strip_prefix_app. cbn.
  by rewrite reverse_involutive.
Qed.

Lemma mapM_strip_prefix (q : unicode) (texts : list unicode) :
  mapM (strip_prefix q) ((λ line, q ++ line) <$> texts) = Some texts.
Proof.
  apply mapM_Some, Forall2_fmap_l, Forall_Forall2_diag, Forall_forall.
  intros line _. apply strip_prefix_app.
Qed.

Lemma prefixed_lines_of (q : unicode) (texts : list unicode) :
  q ≠ [] → Forall (λ c, is_LF c = false) q → lines_of is_LF texts →
  lines_of is_LF ((λ line, q ++ line) <$> texts).
Proof.
  intros Hq Hno. induction 1 as [|l Hl Hl'|body c ls Hbody Hc _ IH]; cbn.
  - constructor.
  - apply lines_of_last; [by destruct q|by apply Forall_app].
  - rewrite (assoc_L (++)). apply lines_of_cons; [by apply Forall_app|done..].
Qed.

(** Stripping with the separator the decoration has put gives the
    lines back. *)
Lemma strip_with_decorate (open prefix close : unicode) (texts : list unicode) :
  LF ∉ prefix → lines_of is_LF texts →
  strip_with [SPACE] open prefix close (decorate open prefix close texts)
  = Some texts.
Proof.
  intros Hp Hls. unfold strip_with, decorate.
  rewrite (assoc_L (++) open), strip_prefix_app. cbn [mbind option_bind].
  rewrite strip_suffix_app. cbn [mbind option_bind].
  assert ((λ line, prefix ++ [SPACE] ++ line) <$> texts
          = (λ line, (prefix ++ [SPACE]) ++ line) <$> texts) as ->.
  { apply list_fmap_ext. intros _ line _. by rewrite <-(assoc_L (++)). }
  unfold text_lines. rewrite split_lines_concat.
  - apply mapM_strip_prefix.
  - apply prefixed_lines_of; [by destruct prefix| |done].
    apply Forall_app. split; [|by repeat constructor].
    apply Forall_forall. intros c Hc. apply N.eqb_neq. by intros ->.
Qed.

(** ** The tables *)

(** Every language of [LANGS] has a style in [LANG_CMT], and a style
    has three markers. *)
Lemma lang_cmt_LANGS (lang name : unicode) :
  LANGS !! lang = Some name →
  ∃ open prefix close,
    LANG_CMT !! name = Some [open; prefix; close]
    ∧ lang_cmt lang 0 = Ok open ∧ lang_cmt lang 1 = Ok prefix
    ∧ lang_cmt lang 2 = Ok close.
Proof.
  intros Hl. unfold lang_cmt. rewrite Hl.
  apply elem_of_list_to_map_2 in Hl.
  repeat (apply elem_of_cons in Hl as [[= -> ->]|Hl];
          [by vm_compute; eexists _, _, _|]).
  by apply elem_of_nil in Hl.
Qed.

(** Every style of [LANG_CMT] is the style of a language. *)
Lemma LANG_CMT_used (name : unicode) (cmt : list unicode) :
  LANG_CMT !! name = Some cmt → ∃ lang, LANGS !! lang = Some name.
Proof.
  intros Hc. apply elem_of_list_to_map_2 in Hc.
  repeat (apply elem_of_cons in Hc as [[= -> ->]|Hc];
          [first [ by exists (u "txt") | by exists (u "c") | by exists (u "py")
                 | by exists (u "lua") | by exists (u "java") | by exists (u "pl")
                 | by exists (u "rb") | by exists (u "f") | by exists (u "f90")
                 | by exists (u "erl") | by exists (u "html") ]|]).
  by apply elem_of_nil in Hc.
Qed.

(** No prefix of the table holds a newline. *)
Lemma lang_cmt_prefix_no_LF (lang prefix : unicode) :
  lang_cmt lang 1 = Ok prefix → LF ∉ prefix.
Proof.
  unfold lang_cmt. destruct (LANGS !! lang) as [name|] eqn:Hl; [|done].
  destruct (LANG_CMT !! name) as [cmt|] eqn:Hc; [|done].
  destruct (cmt !! 1%nat) as [p|] eqn:Hp; [|done]. intros [= <-].
  apply elem_of_list_to_map_2 in Hc.
  repeat (apply elem_of_cons in Hc as [[= -> ->]|Hc];
          [injection Hp as <-; by apply (bool_decide_unpack _)|]).
  by apply elem_of_nil in Hc.
Qed.

(** ** Texts with known placeholders *)

Lemma finditer_no_brace_app (pre s : unicode) :
  LBRACE ∉ pre → finditer (pre ++ s) = finditer s.
Proof.
  induction pre as [|c pre IH]; [done|].
  intros [Hc Hpre]%not_elem_of_cons.
  rewrite <-app_comm_cons, finditer_skip; [by apply IH|].
  by apply match_here_head.
Qed.

Lemma finditer_no_brace (s : unicode) : LBRACE ∉ s → finditer s = [].
Proof.
  intros Hs. rewrite <-(app_nil_r s). by rewrite finditer_no_brace_app.
Qed.

Lemma finditer_token (key rest : unicode) :
  identifier key → finditer (token key ++ rest) = key :: finditer rest.
Proof. intros Hk. by apply finditer_match, match_here_spec. Qed.

Lemma extract_vars_nil (t : unicode) : finditer t = [] → extract_vars t = [].
Proof. unfold extract_vars. by intros ->. Qed.

Lemma extract_vars_one (key pre post : unicode) :
  identifier key → LBRACE ∉ pre → LBRACE ∉ post →
  extract_vars (pre ++ token key ++ post) = [key].
Proof.
  intros Hk Hpre Hpost.
  apply strictly_sorted_unique; [apply extract_vars_sorted|by repeat constructor|].
  intros x. rewrite elem_of_extract_vars, finditer_no_brace_app by done.
  by rewrite finditer_token, (finditer_no_brace post).
Qed.

Lemma extract_vars_two (a b pre mid post : unicode) :
  identifier a → identifier b → lexico a b →
  LBRACE ∉ pre → LBRACE ∉ mid → LBRACE ∉ post →
  extract_vars (pre ++ token a ++ mid ++ token b ++ post) = [a; b]
  ∧ extract_vars (pre ++ token b ++ mid ++ token a ++ post) = [a; b].
Proof.
  intros Ha Hb Hab Hpre Hmid Hpost.
  assert (StronglySorted lexico [a; b]) as Hsorted by by repeat constructor.
  split; (apply strictly_sorted_unique; [apply extract_vars_sorted|done|]);
    intros x; rewrite elem_of_extract_vars, finditer_no_brace_app by done;
    rewrite finditer_token, finditer_no_brace_app by done;
    rewrite finditer_token, (finditer_no_brace post) by done;
    rewrite !elem_of_cons, elem_of_nil; tauto.
Qed.

(** ** Runs of [main] that render *)

Lemma main_render_failure (w : World) (argv : CommandLine) (args : Namespace)
    (template : unicode) (e : exn) :
  parse_args w argv = Ok args →
  header args = true ∨ list_vars args = false →
  loaded_template w args = Some template →
  generate_license template (get_context args) = Raise e →
  main w argv = uncaught e.
Proof.
  intros Hargs Hmode Hload Hgen. unfold main, loaded_template in *.
  rewrite Hargs. destruct (header args).
  - destruct (load_header_template w args) as [t|o]; [|done].
    injection Hload as ->. by rewrite Hgen.
  - destruct Hmode as [Hmode|Hmode]; [done|]. rewrite Hmode.
    destruct (load_template w args) as [t|e']; [|done].
    injection Hload as ->. by rewrite Hgen.
Qed.

(** ** The errors of the loaders *)

Lemma lang_cmt_not_ValueError (lang : unicode) (i : nat) (msg : unicode) :
  lang_cmt lang i ≠ Raise (ValueError msg).
Proof.
  unfold lang_cmt. destruct (LANGS !! lang) as [name|]; [|done].
  destruct (LANG_CMT !! name) as [cmt|]; [|done].
  by destruct (cmt !! i).
Qed.

Lemma write_lines_not_ValueError (lang : unicode) (lines : list bytes)
    (content : unicode) (msg : unicode) :
  write_lines lang lines content ≠ Raise (ValueError msg).
Proof.
  revert content. induction lines as [|line lines IH]; intros content; [done|].
  cbn. pose proof (lang_cmt_not_ValueError lang 1 msg) as Hp.
  destruct (lang_cmt lang 1) as [prefix|e]; cbn; [|congruence].
  unfold decode. destruct (utf8_decode_N _); cbn; [apply IH|done].
Qed.

Lemma write_template_not_ValueError (lang : unicode) (data : bytes)
    (content : unicode) (msg : unicode) :
  write_template lang data content ≠ Raise (ValueError msg).
Proof.
  unfold write_template.
  pose proof (lang_cmt_not_ValueError lang 0 msg) as Ho.
  destruct (lang_cmt lang 0) as [open|e]; cbn; [|congruence].
  pose proof (write_lines_not_ValueError lang (readlines data)
                (write (open ++ [LF]) content) msg) as Hl.
  destruct (write_lines _ _ _) as [content'|e]; cbn; [|congruence].
  pose proof (lang_cmt_not_ValueError lang 2 msg) as Hc.
  destruct (lang_cmt lang 2) as [close|e]; cbn; [done|congruence].
Qed.

(** ** Hypotheses decided by computation *)

Ltac by_computation := apply (bool_decide_unpack _); vm_compute; exact I.

Lemma identifier_dec (key : unicode) :
  forallb is_word key = true → key ≠ [] → identifier key.
Proof.
  intros Hall Hne. split; [done|].
  apply Forall_forall. intros c Hc. rewrite forallb_forall in Hall.
  by apply Hall, list_elem_of_In.
Qed.

Lemma lexico_dec_true (x y : unicode) :
  bool_decide (lexico x y) = true → lexico x y.
Proof. apply bool_decide_eq_true. Qed.

(** * The claims *)

(** C1, as stated, fails: the loaders write a space after every prefix,
    the empty one of the plain-text style too.  The one-line template of
    the scenario renders to a content line that starts with a space, and
    to one final line break; with a template ending in a line break the
    content line starts with a space as well. *)
Lemma decoration_plain_text_counterexample :
  let render license :=
    template ← load_package_template Example.world license (u "txt") false;
    generate_license template Example.context in
  render (u "plain") = Ok (LF :: u " Copyright 2024 Acme" ++ [LF])
  ∧ render (u "plain") ≠ Ok (LF :: u "Copyright 2024 Acme" ++ [LF; LF])
  ∧ render (u "bsd3") ≠ Ok (LF :: u "Copyright 2024 Acme" ++ [LF; LF])
  ∧ load_package_template Example.world (u "plain") (u "txt") false
    ≠ Ok (decorate_spec [] [] []
            [u "Copyright {{ year }} {{ organization }}"]).
Proof.
  cbv zeta. split; [by vm_compute|].
  split; [by vm_compute|]. split; by vm_compute.
Qed.

(** C1, amended.  For every language of the table and every template
    whose lines decode, both loaders write the open marker and a line
    break (the line break also after an empty marker), then for every
    line the prefix, one space (also after an empty prefix) and the
    line, and at last the close marker and a line break.  The scenario
    of the plain-text style yields a line break, a space,
    [Copyright 2024 Acme] and a line break. *)
Theorem decoration_spec (w : World) (lang open prefix close : unicode)
    (data : bytes) (texts : list unicode) (license path : unicode)
    (header : bool) :
  lang_cmt lang 0 = Ok open → lang_cmt lang 1 = Ok prefix →
  lang_cmt lang 2 = Ok close → decoded_lines data = Ok texts →
  resource_stream w
    (if header then u "template-" ++ license ++ u "-header.txt"
     else u "template-" ++ license ++ u ".txt") = Some data →
  os_path_exists w path = true → open_rb w (clean_path w path) = Some data →
  let decorated :=
    open ++ [LF]
      ++ concat ((λ line, prefix ++ [SPACE] ++ line) <$> texts)
      ++ close ++ [LF] in
  load_package_template w license lang header = Ok decorated
  ∧ load_file_template w path lang = Ok decorated
  ∧ (template ← load_package_template Example.world (u "plain") (u "txt") false;
     generate_license template Example.context)
    = Ok (LF :: u " Copyright 2024 Acme" ++ [LF]).
Proof.
  intros Ho Hp Hc Ht Hres Hex Hopen decorated.
  pose proof (write_template_Ok _ _ _ _ _ _ Ho Hp Hc Ht) as Hw.
  split; [|split].
  - unfold load_package_template. by rewrite Hres.
  - unfold load_file_template. by rewrite Hex, Hopen.
  - by vm_compute.
Qed.

Lemma decoration_spec_witness :
  load_package_template Example.world (u "mit") (u "py") true
  = Ok (LF :: u "# Copyright {{ year }} {{ organization }}" ++ [LF; LF])
  ∧ load_file_template Example.world (u "/home/alice/header.txt") (u "py")
    = Ok (LF :: u "# Copyright {{ year }} {{ organization }}" ++ [LF; LF]).
Proof.
  refine (let H := decoration_spec Example.world (u "py") (u "") (u "#") (u "")
            (Example.copyright ++ [Byte.x0a])
            [u "Copyright {{ year }} {{ organization }}" ++ [LF]]
            (u "mit") (u "/home/alice/header.txt") true _ _ _ _ _ _ _ in
          conj (proj1 H) (proj1 (proj2 H)));
    vm_compute; reflexivity.
Defined.

(** C2, as stated, fails: the keys are replaced one after the other,
    each in the text the one before has left, so a placeholder of a
    later key inside the value of an earlier key is expanded.  With
    [a] standing for the placeholder of [b], the template
    [{{ a }} {{ b }}] renders to [X X]; substitution without a second
    look at substituted text gives [{{ b }} X]. *)
Lemma render_rescans_counterexample :
  let template := u "{{ a }} {{ b }}" in
  let context : gmap unicode unicode :=
    list_to_map [ (u "a", u "{{ b }}"); (u "b", u "X") ] in
  generate_license template context = Ok (u "X X")
  ∧ substitute_once context template = u "{{ b }} X"
  ∧ generate_license template context ≠ Ok (substitute_once context template).
Proof. cbv zeta. split; [by vm_compute|]. split; by vm_compute. Qed.

(** C2, amended.  Substitution is plain text replacement done one
    extracted variable after the other, in sorted order: each step
    replaces, in the text the step before has left, the occurrences of
    the placeholder of its variable by the value, from left to right;
    after an occurrence the scan resumes behind it, so the value put in
    is not looked at in that step.  A template with one placeholder and
    no other open brace renders to the text around the placeholder with
    the value in its place, whatever the value holds. *)
Theorem render_sequential (template : unicode)
    (context : gmap unicode unicode) (key value pre post : unicode) (c : N) :
  (∀ key, key ∈ extract_vars template → ¬ missing context key) →
  identifier key → context !! key = Some value →
  LBRACE ∉ pre → LBRACE ∉ post → c ≠ LBRACE →
  generate_license template context
  = Ok (replace_each (extract_vars template) context template)
  ∧ (∀ rest, replace (token key) value (token key ++ rest)
             = value ++ replace (token key) value rest)
  ∧ (∀ rest, replace (token key) value (c :: rest)
             = c :: replace (token key) value rest)
  ∧ generate_license (pre ++ token key ++ post) context
    = Ok (pre ++ value ++ post).
Proof.
  intros Hall Hkey Hvalue Hpre Hpost Hc.
  split; [by apply generate_license_Ok|].
  split; [intros rest; apply replace_hit, token_not_nil|].
  split.
  { intros rest. apply replace_miss; [apply token_not_nil|].
    by apply strip_token_head. }
  unfold generate_license. rewrite extract_vars_one by done.
  cbn. rewrite Hvalue. cbn.
  change (u "{{ " ++ key ++ u " }}") with (token key).
  by rewrite replace_single.
Qed.

Lemma render_sequential_witness :
  generate_license (u "(c) {{ year }} {{ organization }}") Example.context
  = Ok (u "(c) 2024 Acme")
  ∧ generate_license (u "for {{ project }}.")
      {[ u "project" := u "{{ project }} and {{ year }}" ]}
    = Ok (u "for {{ project }} and {{ year }}.").
Proof.
  split.
  - refine (proj1 (render_sequential _ _ (u "year") (u "2024") [] [] 32
                     _ _ _ _ _ _)).
    + apply Forall_forall. by_computation.
    + apply identifier_dec; [reflexivity|discriminate].
    + vm_compute. reflexivity.
    + by_computation.
    + by_computation.
    + discriminate.
  - refine (proj2 (proj2 (proj2
      (render_sequential [] _ (u "project") (u "{{ project }} and {{ year }}")
         (u "for ") (u ".") 32
         _ _ _ _ _ _)))).
    + apply Forall_forall. by_computation.
    + apply identifier_dec; [reflexivity|discriminate].
    + vm_compute. reflexivity.
    + by_computation.
    + by_computation.
    + discriminate.
Defined.

(** C3.  When the context lacks a variable extracted from the template,
    [generate_license] raises the error that names a variable the
    context lacks and returns no text; a run of [main] that renders
    that template then ends with this error and has written nothing,
    neither to the standard output nor to a file. *)
Theorem render_missing_variable (template : unicode)
    (context : gmap unicode unicode) (key : unicode) :
  key ∈ extract_vars template → missing context key →
  ∃ k, k ∈ extract_vars template ∧ missing context k
       ∧ generate_license template context = Raise (missing_variable k)
       ∧ (∀ out, generate_license template context ≠ Ok out)
       ∧ ∀ w argv args,
           parse_args w argv = Ok args →
           header args = true ∨ list_vars args = false →
           loaded_template w args = Some template →
           get_context args = context →
           stdout (main w argv) = [] ∧ written (main w argv) = []
           ∧ status (main w argv) = Raise (missing_variable k).
Proof.
  intros Hin Hmiss.
  destruct (substitute_missing _ context template _ Hin Hmiss)
    as (k & Hk & Hkin & Hkmiss & _).
  assert (generate_license template context = Raise (missing_variable k)) as Hgen.
  { unfold generate_license. by rewrite Hk. }
  exists k. split; [done|]. split; [done|]. split; [done|].
  split; [intros out; by rewrite Hgen|].
  intros w argv args Hargs Hmode Hload <-.
  by rewrite (main_render_failure _ _ _ _ _ Hargs Hmode Hload Hgen).
Qed.

Lemma render_missing_variable_witness :
  let template := LF :: u " {{ title }} by {{ author }}, {{ year }}" ++ [LF] in
  let context : gmap unicode unicode :=
    list_to_map [ (u "year", u "2024"); (u "organization", u "alice");
                  (u "project", u "lice") ] in
  let run := main Example.world Example.draft_command_line in
  ∃ k, generate_license template context = Raise (missing_variable k)
       ∧ stdout run = [] ∧ written run = []
       ∧ status run = Raise (missing_variable k).
Proof.
  intros template context run.
  destruct (render_missing_variable template context (u "title"))
    as (k & _ & _ & Hgen & _ & Hmain).
  - by_computation.
  - vm_compute. reflexivity.
  - exists k. split; [exact Hgen|].
    apply (Hmain Example.world Example.draft_command_line
             {| license := None; header := false; organization := u "alice";
                project := u "lice"; template_path := Some (u "draft.txt");
                year := u "2024"; language := u "txt"; ofile := u "stdout";
                list_vars := false |}).
    + vm_compute. reflexivity.
    + right. reflexivity.
    + vm_compute. reflexivity.
    + vm_compute. reflexivity.
Defined.

(** C4: the code departs from the claim.  [load_file_template] tests
    the path as it was given, not the resolved one: it raises its
    "path does not exist" error exactly when the given path does not
    exist.  In the example world the path [~/header.txt] resolves to
    the existing file [/home/alice/header.txt], and the loader raises
    the error all the same. *)
Theorem load_file_template_tests_given_path :
  (∀ w path lang,
     load_file_template w path lang
     = Raise (ValueError (u "path does not exist: " ++ path))
     ↔ os_path_exists w path = false)
  ∧ clean_path Example.world (u "~/header.txt") = u "/home/alice/header.txt"
  ∧ os_path_exists Example.world (clean_path Example.world (u "~/header.txt"))
    = true
  ∧ is_Some (open_rb Example.world (clean_path Example.world (u "~/header.txt")))
  ∧ load_file_template Example.world (u "~/header.txt") (u "txt")
    = Raise (ValueError (u "path does not exist: ~/header.txt"))
  ∧ is_Some (match load_file_template Example.world
                     (u "/home/alice/header.txt") (u "txt") with
             | Ok template => Some template
             | Raise _ => None
             end).
Proof.
  split.
  { intros w path lang. unfold load_file_template.
    destruct (os_path_exists w path); cbn; [|done].
    split; [|done]. destruct (open_rb w (clean_path w path)); [|done].
    intros H. by apply write_template_not_ValueError in H. }
  split; [by vm_compute|]. split; [by vm_compute|].
  split; [by vm_compute; eexists|]. split; [by vm_compute|].
  by vm_compute; eexists.
Qed.

(** C5.  Extraction matches exactly the placeholders: the matcher
    accepts at the head of a text exactly a token [{{ key }}] whose key
    is a non-empty run of word characters, and [extract_vars] returns
    the keys of the placeholders that occur in the text, each once, in
    strictly increasing lexicographic order; the order of appearance
    plays no part: a text with the placeholders of [a] and [b], in
    either order, yields [[a; b]]. *)
Theorem extract_vars_spec (t a b pre mid post : unicode) :
  identifier a → identifier b → lexico a b →
  LBRACE ∉ pre → LBRACE ∉ mid → LBRACE ∉ post →
  (∀ key rest,
     match_here t = Some (key, rest) ↔ identifier key ∧ t = token key ++ rest)
  ∧ (∀ key, key ∈ extract_vars t ↔ occurs key t)
  ∧ StronglySorted lexico (extract_vars t)
  ∧ extract_vars (pre ++ token a ++ mid ++ token b ++ post) = [a; b]
  ∧ extract_vars (pre ++ token b ++ mid ++ token a ++ post) = [a; b].
Proof.
  intros Ha Hb Hab Hpre Hmid Hpost.
  split; [intros key rest; apply match_here_spec|].
  split; [intros key; by rewrite elem_of_extract_vars, elem_of_finditer|].
  split; [apply extract_vars_sorted|].
  by apply extract_vars_two.
Qed.

Lemma extract_vars_spec_witness :
  extract_vars (u "Copyright {{ a }}, {{ b }}.") = [u "a"; u "b"]
  ∧ extract_vars (u "Copyright {{ b }}, {{ a }}.") = [u "a"; u "b"].
Proof.
  refine (proj2 (proj2 (proj2
    (extract_vars_spec (u "x {{ c }}") (u "a") (u "b") (u "Copyright ") (u ", ")
       (u ".") _ _ _ _ _ _)))).
  - apply identifier_dec; [reflexivity|discriminate].
  - apply identifier_dec; [reflexivity|discriminate].
  - apply lexico_dec_true. vm_compute. reflexivity.
  - by_computation.
  - by_computation.
  - by_computation.
Defined.

(** C6, as stated, fails for the plain-text style: its markers are
    empty, so stripping them leaves the decorated lines as they are,
    and each of them starts with the space the loader has written. *)
Lemma roundtrip_plain_text_counterexample :
  let data := b "The MIT License" ++ [Byte.x0a] in
  let decorated := LF :: u " The MIT License" ++ [LF; LF] in
  lang_cmt (u "txt") 0 = Ok [] ∧ lang_cmt (u "txt") 1 = Ok []
  ∧ lang_cmt (u "txt") 2 = Ok []
  ∧ decoded_lines data = Ok [u "The MIT License" ++ [LF]]
  ∧ write_template (u "txt") data [] = Ok decorated
  ∧ strip_markers_spec [] [] [] decorated = Some [u " The MIT License" ++ [LF]]
  ∧ strip_markers_spec [] [] [] decorated ≠ Some [u "The MIT License" ++ [LF]].
Proof. cbv zeta. repeat split; by vm_compute. Qed.

(** C6, amended.  For every language of the table and every template
    whose lines decode, the loader decorates the template with the
    style of the language, and taking from the decorated text the open
    marker and its line break at the front, the close marker and its
    line break at the end, and the prefix followed by one space (after
    an empty prefix too) at the head of every line in between gives the
    decoded lines of the template back.  Every style of the table is
    the style of a language, so this holds for every style. *)
Theorem strip_decorate_roundtrip (w : World) (lang name : unicode)
    (data : bytes) (texts : list unicode) (license : unicode) (header : bool) :
  LANGS !! lang = Some name → decoded_lines data = Ok texts →
  resource_stream w
    (if header then u "template-" ++ license ++ u "-header.txt"
     else u "template-" ++ license ++ u ".txt") = Some data →
  (∃ open prefix close template,
     LANG_CMT !! name = Some [open; prefix; close]
     ∧ load_package_template w license lang header = Ok template
     ∧ strip_markers open prefix close template = Some texts)
  ∧ (∀ name' cmt, LANG_CMT !! name' = Some cmt →
                  ∃ lang', LANGS !! lang' = Some name').
Proof.
  intros Hlang Htexts Hres. split; [|apply LANG_CMT_used].
  destruct (lang_cmt_LANGS _ _ Hlang)
    as (open & prefix & close & Hcmt & Ho & Hp & Hc).
  exists open, prefix, close, (decorate open prefix close texts).
  split; [done|]. split.
  - unfold load_package_template. rewrite Hres.
    by apply write_template_Ok.
  - apply strip_with_decorate; [by apply (lang_cmt_prefix_no_LF lang)|].
    by apply decoded_lines_lines_of in Htexts.
Qed.

Lemma strip_decorate_roundtrip_witness :
  ∃ template,
    load_package_template Example.world (u "plain") (u "c") false = Ok template
    ∧ strip_markers (u "/*") (u " *") (u " */") template
      = Some [u "Copyright {{ year }} {{ organization }}"].
Proof.
  destruct (strip_decorate_roundtrip Example.world (u "c") (u "c")
              Example.copyright [u "Copyright {{ year }} {{ organization }}"]
              (u "plain") false)
    as [(open & prefix & close & template & Hcmt & Hload & Hstrip) _].
  - vm_compute. reflexivity.
  - vm_compute. reflexivity.
  - vm_compute. reflexivity.
  - exists template. split; [exact Hload|].
    assert (Some [open; prefix; close] = Some [u "/*"; u " *"; u " */"]) as Heq.
    { rewrite <-Hcmt. vm_compute. reflexivity. }
    injection Heq as -> -> ->. exact Hstrip.
Defined.

(** C7.  A text without placeholder has no variable, and renders to
    itself in every context; rendering what was rendered once more
    changes nothing. *)
Theorem render_no_placeholder (t : unicode) :
  no_placeholder t →
  extract_vars t = []
  ∧ (∀ context, generate_license t context = Ok t)
  ∧ (∀ context context',
       (rendered ← generate_license t context;
        generate_license rendered context') = Ok t).
Proof.
  intros Hno%finditer_nil_iff.
  assert (∀ context, generate_license t context = Ok t) as Hgen.
  { intros context. unfold generate_license.
    by rewrite (extract_vars_nil _ Hno). }
  split; [by apply extract_vars_nil|]. split; [done|].
  intros context context'. rewrite Hgen. cbn. apply Hgen.
Qed.

Lemma render_no_placeholder_witness :
  generate_license (u "Copyright 2024 Acme {year}") Example.context
  = Ok (u "Copyright 2024 Acme {year}").
Proof.
  refine (proj1 (proj2 (render_no_placeholder _ _)) Example.context).
  apply finditer_nil_iff. vm_compute. reflexivity.
Defined.

(** C8.  In the header mode without a template path: when the package
    has no header template for the license, the run writes the
    diagnostic to the error stream, nothing to the standard output, and
    exits with status 1.  In the header mode, when the template loads
    and renders, the run writes the rendered text to the standard
    output and exits with status 0. *)
Theorem header_mode (w : World) (argv : CommandLine) (args : Namespace) :
  parse_args w argv = Ok args → header args = true →
  (truthy (template_path args) = None →
   resource_stream w (u "template-" ++ license_of args ++ u "-header.txt") = None →
   stderr (main w argv)
   = u "Sorry, no source headers are available for "
       ++ format_s (license args) ++ u "." ++ [LF]
   ∧ stdout (main w argv) = [] ∧ written (main w argv) = []
   ∧ status (main w argv) = Raise (SystemExit 1)
   ∧ exit_code (main w argv) = 1)
  ∧ (∀ template content,
       load_header_template w args = inl template →
       generate_license template (get_context args) = Ok content →
       stdout (main w argv) = content ∧ stderr (main w argv) = []
       ∧ status (main w argv) = Raise (SystemExit 0)
       ∧ exit_code (main w argv) = 0).
Proof.
  intros Hargs Hheader. unfold exit_code, main. rewrite Hargs, Hheader. split.
  - intros Hpath Hres. unfold load_header_template, load_package_template.
    by rewrite Hpath, Hres.
  - intros template content Hload Hgen. by rewrite Hload, Hgen.
Qed.

Lemma header_mode_witness :
  exit_code (main Example.world Example.header_command_line) = 1
  ∧ stdout (main Example.world Example.mit_header_command_line)
    = LF :: u "# Copyright 2024 alice" ++ [LF; LF]
  ∧ exit_code (main Example.world Example.mit_header_command_line) = 0.
Proof.
  split.
  - refine (proj2 (proj2 (proj2 (proj2 (proj1
      (header_mode Example.world Example.header_command_line
         {| license := None; header := true; organization := u "alice";
            project := u "lice"; template_path := None;
            year := u "2024"; language := u "txt"; ofile := u "stdout";
            list_vars := false |} _ _) _ _))))).
    all: vm_compute; reflexivity.
  - refine (let H := proj2
      (header_mode Example.world Example.mit_header_command_line
         {| license := Some (u "mit"); header := true; organization := u "alice";
            project := u "lice"; template_path := None;
            year := u "2024"; language := u "py"; ofile := u "stdout";
            list_vars := false |} ltac:(vm_compute; reflexivity) eq_refl)
         (LF :: u "# Copyright {{ year }} {{ organization }}" ++ [LF; LF])
         (LF :: u "# Copyright 2024 alice" ++ [LF; LF])
         ltac:(vm_compute; reflexivity) ltac:(vm_compute; reflexivity) in
       conj (proj1 H) (proj2 (proj2 (proj2 H)))).
Defined.

(** C9: the code departs from the claim.  When [git config] fails in
    any way, [guess_organization] takes the name of the user from
    [getpass.getuser()] and calls [decode] on it, as it does on the
    output of [git].  Where that name is a byte string, as under
    Python 2, this is the fall back the claim describes.  Where it is a
    text string, as under Python 3, the call raises [AttributeError]:
    nothing is returned, and since the default of [-o] is computed
    before the command line is read, every run ends with that error,
    also a run that gives the organization.  In the example world
    without [git], where the user is [alice], a run without options
    writes nothing and leaves with status 1.  The values that are
    returned are decoded and, for the answer of [git], stripped. *)
Theorem guess_organization_fallback_raises :
  (∀ w e user argv,
     check_output w git_config_get_user_name = Raise e →
     getpass_getuser w = Ok (Text user) →
     guess_organization w = Raise AttributeError
     ∧ main w argv = uncaught AttributeError)
  ∧ (∀ w e user,
       check_output w git_config_get_user_name = Raise e →
       getpass_getuser w = Ok (Bytes user) →
       guess_organization w = decode user)
  ∧ (∀ w out,
       check_output w git_config_get_user_name = Ok out →
       guess_organization w = decode (strip out))
  ∧ guess_organization (Scenario.no_git_world (Ok (Text (u "alice"))))
    = Raise AttributeError
  ∧ stdout (main (Scenario.no_git_world (Ok (Text (u "alice"))))
              Example.command_line) = []
  ∧ exit_code (main (Scenario.no_git_world (Ok (Text (u "alice"))))
                 Example.command_line) = 1
  ∧ main (Scenario.no_git_world (Ok (Text (u "alice"))))
      (Scenario.acme_command_line) = uncaught AttributeError
  ∧ guess_organization
      (Scenario.no_git_world (Ok (Bytes (b "zo" ++ [Byte.xc3; Byte.xab]))))
    = Ok (u "zo" ++ [235])
  ∧ guess_organization
      (Scenario.git_world (Ok (b " Zo" ++ [Byte.xc3; Byte.xab; Byte.x0a])))
    = Ok (u "Zo" ++ [235]).
Proof.
  assert (∀ w e user,
            check_output w git_config_get_user_name = Raise e →
            getpass_getuser w = Ok (Text user) →
            guess_organization w = Raise AttributeError) as Hraise.
  { intros w e user He Huser. unfold guess_organization.
    by rewrite He, Huser. }
  split.
  { intros w e user argv He Huser. split; [by eapply Hraise|].
    unfold main, parse_args. by erewrite Hraise. }
  split.
  { intros w e user He Huser. unfold guess_organization.
    by rewrite He, Huser. }
  split.
  { intros w out Hout. unfold guess_organization. by rewrite Hout. }
  repeat split; vm_compute; reflexivity.
Qed.

(** C10.  When the context lacks one or more of the extracted
    variables, the error names the least of them in lexicographic
    order: the keys are tried in the order of the sorted list. *)
Theorem render_least_missing_variable (template : unicode)
    (context : gmap unicode unicode) (key : unicode) :
  key ∈ extract_vars template → missing context key →
  ∃ k, generate_license template context = Raise (missing_variable k)
       ∧ k ∈ extract_vars template ∧ missing context k
       ∧ ∀ key', key' ∈ extract_vars template → missing context key' →
                 str_le k key'.
Proof.
  intros Hin Hmiss.
  destruct (substitute_missing _ context template _ Hin Hmiss)
    as (k & Hk & Hkin & Hkmiss & Hleast).
  exists k. split; [unfold generate_license; by rewrite Hk|].
  split; [done|]. split; [done|].
  apply Hleast, extract_vars_sorted.
Qed.

Lemma render_least_missing_variable_witness :
  ∃ k, generate_license (u "{{ title }} by {{ author }}, {{ year }}")
         {[ u "year" := u "2024" ]}
       = Raise (missing_variable k)
       ∧ str_le k (u "author") ∧ str_le k (u "title").
Proof.
  destruct (render_least_missing_variable
              (u "{{ title }} by {{ author }}, {{ year }}")
              {[ u "year" := u "2024" ]} (u "title"))
    as (k & Hgen & _ & _ & Hleast).
  - by_computation.
  - vm_compute. reflexivity.
  - exists k. split; [exact Hgen|].
    split; apply Hleast.
    + by_computation.
    + vm_compute. reflexivity.
    + by_computation.
    + vm_compute. reflexivity.
Defined.

(** * Further properties *)

(** ** The list of licenses *)

Lemma run_length_le (s : unicode) : (run_length s ≤ length s)%nat.
Proof.
  induction s as [|c s IH]; simpl; [lia|].
  destruct (is_license_char c); simpl; lia.
Qed.

Lemma run_length_take (s : unicode) (n : nat) :
  (n ≤ run_length s)%nat → Forall (λ c, is_license_char c = true) (take n s).
Proof.
  revert n. induction s as [|c s IH]; intros [|n] Hn; simpl in *;
    try by constructor.
  destruct (is_license_char c) eqn:Hc; [|lia].
  constructor; [done|]. apply IH. lia.
Qed.

Lemma run_length_app (name r : unicode) :
  Forall (λ c, is_license_char c = true) name →
  match r with [] => True | c :: _ => is_license_char c = false end →
  run_length (name ++ r) = length name.
Proof.
  induction 1 as [|c name Hc _ IH]; intros Hr; simpl.
  - destruct r as [|c r]; [done|]. simpl. by rewrite Hr.
  - by rewrite Hc, IH.
Qed.

Lemma dot_txt_spec (s : unicode) :
  dot_txt s = true ↔ ∃ c r, c ≠ LF ∧ s = c :: u "txt" ++ r.
Proof.
  destruct s as [|c s]; cbn [dot_txt].
  { split; [done|]. by intros (c & r & _ & ?). }
  rewrite andb_true_iff, negb_true_iff, N.eqb_neq, bool_decide_eq_true.
  split.
  - intros [Hc [r Hr]]. apply strip_prefix_Some in Hr. by exists c, r; subst.
  - intros (c' & r & Hc & Heq). apply (inj2 cons) in Heq as [-> ->].
    split; [done|]. exists r. apply strip_prefix_app.
Qed.

Lemma backtrack_Some (n : nat) (rest name : unicode) :
  backtrack n rest = Some name →
  ∃ m, (0 < m ≤ n)%nat ∧ name = take m rest ∧ dot_txt (drop m rest) = true.
Proof.
  induction n as [|n IH]; [done|]. cbn [backtrack].
  destruct (dot_txt (drop (S n) rest)) eqn:Hd.
  - intros [= <-]. exists (S n). split; [lia|done].
  - intros (m & Hm & ? & ?)%IH. exists m. split; [lia|done].
Qed.

(** A match gives a name of the class, found in the file name between
    [template-] and any character but a newline followed by [txt]. *)
Lemma match_license_sound (file name : unicode) :
  match_license file = Some name →
  license_name name
  ∧ ∃ c rest, c ≠ LF ∧ file = u "template-" ++ name ++ c :: u "txt" ++ rest.
Proof.
  unfold match_license.
  destruct (strip_prefix (u "template-") file) as [rest|] eqn:Hp; [|done].
  apply strip_prefix_Some in Hp as ->. cbn [mbind option_bind].
  intros (m & [Hm1 Hm2] & -> & Hd)%backtrack_Some.
  apply dot_txt_spec in Hd as (c & r & Hc & Hr).
  pose proof (run_length_le rest) as Hle.
  split; [split|].
  - intros Hnil%(f_equal length). rewrite length_take in Hnil.
    simpl in Hnil. lia.
  - by apply run_length_take.
  - exists c, r. split; [done|]. f_equal.
    by rewrite <-Hr, take_drop.
Qed.

Lemma not_license_char_dot : is_license_char 46 = false.
Proof. reflexivity. Qed.

(** A file named [template-<name>.txt], whatever follows, gives [name]. *)
Lemma match_license_complete (name suffix : unicode) :
  license_name name →
  match_license (u "template-" ++ name ++ u ".txt" ++ suffix) = Some name.
Proof.
  intros [Hne Hname]. unfold match_license.
  rewrite strip_prefix_app. cbn [mbind option_bind].
  change (u ".txt") with (46 :: u "txt"). rewrite <-app_comm_cons.
  rewrite run_length_app by done.
  destruct name as [|c name]; [done|]. cbn [length backtrack].
  change (S (length name)) with (length (c :: name)).
  rewrite drop_app_length, take_app_length.
  assert (dot_txt (46 :: u "txt" ++ suffix) = true) as ->; [|done].
  apply dot_txt_spec. by exists 46, suffix.
Qed.

Lemma elem_of_module_LICENSES (listdir : list unicode) (name : unicode) :
  name ∈ module_LICENSES listdir
  ↔ ∃ file, file ∈ listdir ∧ match_license file = Some name.
Proof.
  unfold module_LICENSES. rewrite list_elem_of_omap.
  by setoid_rewrite sorted_Permutation.
Qed.

(** The header template of a license whose name does not hold [txt]
    matches no license. *)
Lemma match_license_header (name : unicode) :
  license_name name → (∀ x y, name ≠ x ++ u "txt" ++ y) →
  match_license (u "template-" ++ name ++ u "-header.txt") = None.
Proof.
  intros [_ Hname] Hno.
  destruct (match_license _) as [n|] eqn:Hm; [exfalso|done].
  apply match_license_sound in Hm as ([_ Hn] & c & rest & _ & Heq).
  apply app_inv_head in Heq.
  change (u "-header.txt") with (45 :: 104 :: 101 :: u "ader.txt") in Heq.
  change (u "txt") with [116; 120; 116] in *.
  symmetry in Heq.
  apply app_eq_app in Heq as [l [[H1 H2]|[H1 H2]]].
  - destruct l as [|l0 l]; simplify_eq/=.
    apply Forall_app in Hn as [_ Hn]. by apply Forall_cons in Hn as [? _].
  - destruct l as [|l0 [|l1 [|l2 [|l3 l4]]]]; simplify_eq/=.
    by destruct (Hno (n ++ [l0]) l4); rewrite <-(assoc_L (++)).
Qed.

Lemma run_length_ge (name r : unicode) :
  Forall (λ c, is_license_char c = true) name →
  (length name ≤ run_length (name ++ r))%nat.
Proof.
  induction 1 as [|c name Hc _ IH]; simpl; [lia|]. rewrite Hc. lia.
Qed.

Lemma backtrack_None (n : nat) (rest : unicode) :
  backtrack n rest = None →
  ∀ m, (0 < m ≤ n)%nat → dot_txt (drop m rest) = false.
Proof.
  induction n as [|n IH]; [intros _ m; lia|]. cbn [backtrack].
  destruct (dot_txt (drop (S n) rest)) eqn:Hd; [done|].
  intros Hb m Hm. destruct (decide (m = S n)) as [->|]; [done|].
  apply IH; [done|lia].
Qed.

(** The greedy group gives back as little as it can. *)
Lemma backtrack_greatest (n : nat) (rest name : unicode) :
  (n ≤ length rest)%nat → backtrack n rest = Some name →
  ∀ m, (length name < m ≤ n)%nat → dot_txt (drop m rest) = false.
Proof.
  intros Hn. induction n as [|n IH]; [done|]. cbn [backtrack].
  destruct (dot_txt (drop (S n) rest)) eqn:Hd.
  - intros [= <-] m. rewrite length_take. lia.
  - intros Hb m Hm. destruct (decide (m = S n)) as [->|]; [done|].
    apply IH; [lia|done|lia].
Qed.

Lemma template_of_rest (name rest : unicode) :
  template_of name (u "template-" ++ rest) →
  (0 < length name ≤ run_length rest)%nat
  ∧ name = take (length name) rest
  ∧ dot_txt (drop (length name) rest) = true.
Proof.
  intros [[Hne Hname] (c & r & Hc & Heq)].
  apply app_inv_head in Heq as ->.
  split; [split|split].
  - destruct name; [done|simpl; lia].
  - by apply run_length_ge.
  - by rewrite take_app_length.
  - rewrite drop_app_length. apply dot_txt_spec. by exists c, r.
Qed.

(** The pattern matches a file name when some name stands in it
    between [template-] and [.txt], and the group is the longest such
    name. *)
Lemma match_license_spec (file name : unicode) :
  match_license file = Some name
  ↔ template_of name file
    ∧ ∀ name', template_of name' file → (length name' ≤ length name)%nat.
Proof.
  assert (∀ file name, match_license file = Some name →
            template_of name file
            ∧ ∀ name', template_of name' file
                       → (length name' ≤ length name)%nat) as Hsound.
  { clear. intros file name Hm.
    split; [by apply match_license_sound|].
    unfold match_license in Hm.
    destruct (strip_prefix (u "template-") file) as [rest|] eqn:Hp; [|done].
    apply strip_prefix_Some in Hp as ->. cbn [mbind option_bind] in Hm.
    intros name' ([Hlen1 Hlen2] & _ & Hd)%template_of_rest.
    destruct (decide (length name' ≤ length name)%nat) as [|Hgt]; [done|].
    rewrite (backtrack_greatest _ _ _ (run_length_le rest) Hm) in Hd; [done|].
    lia. }
  split; [apply Hsound|].
  intros [Hname Hmax].
  destruct Hname as [Hclass (c & r & Hc & ->)].
  assert (template_of name (u "template-" ++ name ++ c :: u "txt" ++ r))
    as Hname by (split; [done|by exists c, r]).
  destruct (match_license _) as [name2|] eqn:Hm.
  - apply Hsound in Hm as [Hname2 Hmax2].
    pose proof (Hmax _ Hname2). pose proof (Hmax2 _ Hname).
    destruct Hname2 as [_ (c2 & r2 & _ & Heq)].
    apply app_inv_head, app_inj_1 in Heq as [-> _]; [done|lia].
  - exfalso. unfold match_license in Hm.
    rewrite strip_prefix_app in Hm. cbn [mbind option_bind] in Hm.
    apply template_of_rest in Hname as (Hlen & _ & Hd).
    by rewrite (backtrack_None _ _ Hm _ Hlen) in Hd.
Qed.

Lemma license_name_dec (name : unicode) :
  forallb is_license_char name = true → name ≠ [] → license_name name.
Proof.
  intros Hall Hne. split; [done|].
  apply Forall_forall. intros c Hc. rewrite forallb_forall in Hall.
  by apply Hall, list_elem_of_In.
Qed.

(** X1.  The list of licenses holds exactly the groups of the file
    names of the package directory that match the pattern.  A name is
    on the list if and only if the directory has a file name in which
    it stands between [template-] and [.txt], the dot being any
    character but a newline and anything following, and in which no
    longer name does: it is a non-empty name of lower-case letters,
    digits and underscores, and the longest such name of that file.  So
    a file named [template-<name>.txt], with anything after it, puts
    [name] on the list; the file name [template-txtxtxt] gives [txt],
    not [t]; and the example directory gives [bsd3], [gpl_3] and [mit],
    in the order of the sorted file names. *)
Theorem module_LICENSES_spec :
  (∀ listdir name,
     name ∈ module_LICENSES listdir
     ↔ ∃ file, file ∈ listdir ∧ template_of name file
               ∧ ∀ name', template_of name' file
                          → (length name' ≤ length name)%nat)
  ∧ (∀ listdir name suffix,
       license_name name →
       u "template-" ++ name ++ u ".txt" ++ suffix ∈ listdir →
       name ∈ module_LICENSES listdir)
  ∧ template_of (u "t") (u "template-txtxtxt")
  ∧ module_LICENSES [u "template-txtxtxt"] = [u "txt"]
  ∧ module_LICENSES Scenario.listdir = [u "bsd3"; u "gpl_3"; u "mit"].
Proof.
  split.
  { intros listdir name. rewrite elem_of_module_LICENSES.
    by setoid_rewrite match_license_spec. }
  split.
  { intros listdir name suffix Hname Hin.
    apply elem_of_module_LICENSES. eexists. split; [done|].
    by apply match_license_complete. }
  split.
  { split; [apply license_name_dec; [reflexivity|discriminate]|].
    exists 120, (u "xt"). split; [discriminate|reflexivity]. }
  split; vm_compute; reflexivity.
Qed.

(** X2.  The header template of a license whose name does not hold
    [txt] adds nothing to the list of licenses. *)
Theorem module_LICENSES_header (listdir : list unicode) (name : unicode) :
  license_name name → (∀ x y, name ≠ x ++ u "txt" ++ y) →
  ∀ n, n ∈ module_LICENSES
             ((u "template-" ++ name ++ u "-header.txt") :: listdir)
       ↔ n ∈ module_LICENSES listdir.
Proof.
  intros Hname Hno n. rewrite !elem_of_module_LICENSES.
  split.
  - intros (file & [->|Hin]%elem_of_cons & Hm).
    + by rewrite match_license_header in Hm.
    + by exists file.
  - intros (file & Hin & Hm). exists file. split; [by right|done].
Qed.

Lemma module_LICENSES_header_witness :
  u "mit" ∈ module_LICENSES (u "template-mit-header.txt" :: Scenario.listdir)
  ↔ u "mit" ∈ module_LICENSES Scenario.listdir.
Proof.
  refine (module_LICENSES_header Scenario.listdir (u "mit") _ _ (u "mit")).
  - apply license_name_dec; [reflexivity|discriminate].
  - intros x y H. vm_compute in H.
    destruct x as [|? [|? [|? [|? ?]]]]; discriminate.
Defined.

(** ** Placeholders and line breaks *)

Lemma token_last (key : unicode) : last (token key) = Some RBRACE.
Proof. unfold token. by rewrite !last_app. Qed.

Lemma token_no_LF (key : unicode) : identifier key → LF ∉ token key.
Proof.
  intros [_ Hk]. rewrite token_unfold.
  rewrite !not_elem_of_cons, not_elem_of_app, !not_elem_of_cons.
  repeat split; try done.
  - intros Hin. rewrite Forall_forall in Hk. by apply Hk in Hin.
  - apply not_elem_of_nil.
Qed.

(** A placeholder does not reach into a stretch without closing brace
    that ends in a line break: a match at the head of a text before
    such a stretch is a match at the head of the text. *)
Lemma match_here_barrier (x c s : unicode) :
  RBRACE ∉ c →
  match_here (x ++ c ++ LF :: s)
  = (λ '(key, rest), (key, rest ++ c ++ LF :: s)) <$> match_here x.
Proof.
  intros Hc. destruct (match_here x) as [[key rest]|] eqn:Hx; cbn.
  - apply match_here_spec in Hx as [Hkey ->].
    apply match_here_spec. split; [done|]. by rewrite <-(assoc_L (++)).
  - destruct (match_here (x ++ c ++ LF :: s)) as [[key rest]|] eqn:Hm; [|done].
    exfalso. apply match_here_spec in Hm as [Hkey Heq].
    symmetry in Heq. apply app_eq_app in Heq as [l [[H1 H2]|[H1 H2]]].
    + destruct l as [|l0 l].
      { rewrite app_nil_r in H1. subst x.
        assert (match_here (token key) = Some (key, [])) as Hsome.
        { apply match_here_spec. by rewrite app_nil_r. }
        congruence. }
      pose proof (token_last key) as Hlast.
      rewrite H1, last_app_cons in Hlast.
      apply last_Some in Hlast as [l' Hl'].
      pose proof (token_no_LF key Hkey) as Hnl. rewrite H1 in Hnl.
      apply not_elem_of_app in Hnl as [_ Hnl].
      apply app_eq_app in H2 as [l2 [[H3 H4]|[H3 H4]]].
      * apply Hc. rewrite H3, Hl', <-(assoc_L (++)).
        apply elem_of_app. right. by left.
      * destruct l2 as [|y l2].
        -- rewrite app_nil_r in H3. apply Hc. rewrite <-H3, Hl'.
           apply elem_of_app. right. by left.
        -- injection H4 as <- _. apply Hnl. rewrite H3.
           apply elem_of_app. right. by left.
    + assert (match_here x = Some (key, l)) as Hsome
        by by apply match_here_spec.
      congruence.
Qed.

(** The scan of a text before such a stretch is the scan of the text,
    followed by the scan of what comes after the line break. *)
Lemma finditer_barrier (x c s : unicode) :
  LBRACE ∉ c → RBRACE ∉ c →
  finditer (x ++ c ++ LF :: s) = finditer x ++ finditer s.
Proof.
  intros Hl Hr.
  apply (finditer_ind (λ x l, finditer (x ++ c ++ LF :: s) = l ++ finditer s)).
  - change (c ++ LF :: s) with (c ++ [LF] ++ s).
    rewrite app_nil_l, (assoc_L (++)). apply finditer_no_brace_app.
    rewrite not_elem_of_app, not_elem_of_cons. split; [done|].
    split; [done|apply not_elem_of_nil].
  - intros key rest Hkey IH.
    by rewrite <-(assoc_L (++)), finditer_token, IH.
  - intros c0 x' Hnone IH. rewrite <-app_comm_cons, finditer_skip; [done|].
    rewrite app_comm_cons, match_here_barrier by done. by rewrite Hnone.
Qed.

(** The markers of the table hold neither brace nor newline. *)
Lemma lang_cmt_plain (lang : unicode) (i : nat) (m : unicode) :
  lang_cmt lang i = Ok m → plain_marker m.
Proof.
  unfold lang_cmt. destruct (LANGS !! lang) as [name|] eqn:Hl; [|done].
  destruct (LANG_CMT !! name) as [cmt|] eqn:Hc; [|done].
  destruct (cmt !! i) as [p|] eqn:Hp; [|done]. intros [= <-].
  apply elem_of_list_to_map_2 in Hc.
  repeat (apply elem_of_cons in Hc as [[= -> ->]|Hc];
          [destruct i as [|[|[|i]]]; [injection Hp as <-..|done];
           (split; [|split]); by apply (bool_decide_unpack _)|]).
  by apply elem_of_nil in Hc.
Qed.

(** The scan of a decorated template finds the placeholders of the
    template, in the same order. *)
Lemma finditer_decorate (open prefix close : unicode) (texts : list unicode) :
  plain_marker open → plain_marker prefix → plain_marker close →
  lines_of is_LF texts →
  finditer (decorate open prefix close texts) = finditer (concat texts).
Proof.
  intros (Ho & _ & _) (Hp & _ & _) (Hcl & Hcr & _) Hls. unfold decorate.
  rewrite (assoc_L (++) open), finditer_no_brace_app.
  2: { rewrite not_elem_of_app, not_elem_of_cons. split; [done|].
       split; [done|apply not_elem_of_nil]. }
  assert (LBRACE ∉ prefix ++ [SPACE]) as Hps.
  { rewrite not_elem_of_app, not_elem_of_cons. split; [done|].
    split; [done|apply not_elem_of_nil]. }
  induction Hls as [|l Hl Hno|body ch ls Hbody Hch _ IH].
  - cbn [fmap list_fmap concat app]. apply finditer_no_brace.
    rewrite not_elem_of_app, not_elem_of_cons. split; [done|].
    split; [done|apply not_elem_of_nil].
  - cbn [fmap list_fmap concat]. rewrite !app_nil_r, <-!(assoc_L (++)).
    rewrite (assoc_L (++) prefix), finditer_no_brace_app by done.
    rewrite finditer_barrier by done. apply app_nil_r.
  - apply N.eqb_eq in Hch as ->. cbn [fmap list_fmap concat].
    rewrite <-!(assoc_L (++)).
    rewrite (assoc_L (++) prefix), finditer_no_brace_app by done.
    assert (∀ s, body ++ [LF] ++ s = body ++ [] ++ LF :: s) as Hform by done.
    rewrite !Hform, !(finditer_barrier body []) by apply not_elem_of_nil.
    by rewrite IH.
Qed.

(** X3.  Decoration keeps the placeholders: for every language of the
    table and every template whose lines decode, the scan of the text
    either loader returns finds the placeholders of the template, in
    the same order, so the loaded template has the variables of the
    undecorated text. *)
Theorem load_keeps_placeholders (w : World) (lang name : unicode)
    (data : bytes) (texts : list unicode) (license path : unicode)
    (header : bool) :
  LANGS !! lang = Some name → decoded_lines data = Ok texts →
  resource_stream w
    (if header then u "template-" ++ license ++ u "-header.txt"
     else u "template-" ++ license ++ u ".txt") = Some data →
  os_path_exists w path = true → open_rb w (clean_path w path) = Some data →
  ∃ template,
    load_package_template w license lang header = Ok template
    ∧ load_file_template w path lang = Ok template
    ∧ finditer template = finditer (concat texts)
    ∧ extract_vars template = extract_vars (concat texts).
Proof.
  intros Hlang Htexts Hres Hex Hopen.
  destruct (lang_cmt_LANGS _ _ Hlang)
    as (open & prefix & close & _ & Ho & Hp & Hc).
  pose proof (write_template_Ok _ _ _ _ _ _ Ho Hp Hc Htexts) as Hw.
  assert (finditer (decorate open prefix close texts) = finditer (concat texts))
    as Hscan.
  { apply finditer_decorate; [by eapply lang_cmt_plain..|].
    by apply decoded_lines_lines_of in Htexts. }
  exists (decorate open prefix close texts).
  split; [unfold load_package_template; by rewrite Hres|].
  split; [unfold load_file_template; by rewrite Hex, Hopen|].
  split; [done|]. unfold extract_vars. by rewrite Hscan.
Qed.

Lemma load_keeps_placeholders_witness :
  ∃ template,
    load_package_template Example.world (u "mit") (u "c") true = Ok template
    ∧ load_file_template Example.world (u "/home/alice/header.txt") (u "c")
      = Ok template
    ∧ extract_vars template = [u "organization"; u "year"].
Proof.
  destruct (load_keeps_placeholders Example.world (u "c") (u "c")
              (Example.copyright ++ [Byte.x0a])
              [u "Copyright {{ year }} {{ organization }}" ++ [LF]]
              (u "mit") (u "/home/alice/header.txt") true)
    as (template & Hload & Hfile & _ & Hvars).
  - vm_compute. reflexivity.
  - vm_compute. reflexivity.
  - vm_compute. reflexivity.
  - vm_compute. reflexivity.
  - vm_compute. reflexivity.
  - exists template. split; [exact Hload|]. split; [exact Hfile|].
    rewrite Hvars. vm_compute. reflexivity.
Defined.

(** ** The lines of a decorated template *)

Lemma text_lines_terminated (ls : list unicode) (rest : unicode) :
  Forall terminated ls → text_lines (concat ls ++ rest) = ls ++ text_lines rest.
Proof.
  induction 1 as [|x ls (body & -> & Hbody) _ IH]; [done|].
  cbn [concat]. rewrite <-!(assoc_L (++)). cbn [app].
  unfold text_lines in *. by rewrite split_lines_line, IH.
Qed.

Lemma lines_of_init (init : list unicode) (l : unicode) :
  lines_of is_LF (init ++ [l]) → Forall terminated init.
Proof.
  induction init as [|x init IH]; [constructor|].
  rewrite <-app_comm_cons. inversion 1 as [|? ? ? Heq|body c ls Hbody Hc Hls Heq].
  { by destruct init. }
  constructor; [|by apply IH].
  apply N.eqb_eq in Hc as ->. by exists body.
Qed.

Lemma lines_of_terminated (texts : list unicode) :
  lines_of is_LF texts → Forall (λ l, last l = Some LF) texts →
  Forall terminated texts.
Proof.
  induction 1 as [|l Hl Hno|body c ls Hbody Hc _ IH]; intros Hlast.
  - constructor.
  - apply Forall_cons in Hlast as [[l' ->]%last_Some _].
    apply Forall_app in Hno as [_ Hno]. by apply Forall_cons in Hno as [? _].
  - apply Forall_cons in Hlast as [_ Hlast].
    constructor; [|by apply IH].
    apply N.eqb_eq in Hc as ->. by exists body.
Qed.

Lemma no_LF_Forall (s : unicode) : LF ∉ s → Forall (λ c, is_LF c = false) s.
Proof.
  intros Hs. apply Forall_forall. intros c Hc. apply N.eqb_neq. by intros ->.
Qed.

Lemma terminated_marker (m : unicode) : LF ∉ m → terminated (m ++ [LF]).
Proof. intros Hm. exists m. split; [done|by apply no_LF_Forall]. Qed.

Lemma terminated_prefixed (prefix : unicode) (texts : list unicode) :
  LF ∉ prefix → Forall terminated texts → Forall terminated (prefixed prefix texts).
Proof.
  intros Hp Hall. unfold prefixed. rewrite Forall_fmap.
  apply (Forall_impl _ _ _ Hall). intros line (body & -> & Hbody). cbn.
  exists (prefix ++ [SPACE] ++ body). split; [by rewrite <-!(assoc_L (++))|].
  apply Forall_app. split; [by apply no_LF_Forall|].
  apply Forall_app. split; [by repeat constructor|done].
Qed.

(** X4.  When every line of the template ends with a line break, the
    text the loader returns is made of a line with the open marker,
    the lines of the template, each behind the prefix and a space, and
    a line with the close marker. *)
Theorem load_lines_terminated (w : World) (lang open prefix close : unicode)
    (data : bytes) (texts : list unicode) (license : unicode) (header : bool) :
  lang_cmt lang 0 = Ok open → lang_cmt lang 1 = Ok prefix →
  lang_cmt lang 2 = Ok close → decoded_lines data = Ok texts →
  resource_stream w
    (if header then u "template-" ++ license ++ u "-header.txt"
     else u "template-" ++ license ++ u ".txt") = Some data →
  Forall (λ line, last line = Some LF) texts →
  ∃ template,
    load_package_template w license lang header = Ok template
    ∧ text_lines template
      = (open ++ [LF]) :: prefixed prefix texts ++ [close ++ [LF]].
Proof.
  intros Ho Hp Hc Htexts Hres Hlast.
  exists (decorate open prefix close texts). split.
  { unfold load_package_template. rewrite Hres. by apply write_template_Ok. }
  destruct (lang_cmt_plain _ _ _ Ho) as (_ & _ & Hno).
  destruct (lang_cmt_plain _ _ _ Hp) as (_ & _ & Hnp).
  destruct (lang_cmt_plain _ _ _ Hc) as (_ & _ & Hnc).
  apply decoded_lines_lines_of in Htexts.
  pose proof (lines_of_terminated _ Htexts Hlast) as Hterm.
  set (ls := (open ++ [LF]) :: prefixed prefix texts ++ [close ++ [LF]]).
  assert (decorate open prefix close texts = concat ls ++ []) as ->.
  { unfold decorate, ls, prefixed. cbn [concat].
    by rewrite concat_app, app_nil_r, <-!(assoc_L (++)); cbn;
      rewrite app_nil_r. }
  rewrite text_lines_terminated; [apply app_nil_r|].
  constructor; [by apply terminated_marker|].
  apply Forall_app. split; [by apply terminated_prefixed|].
  constructor; [by apply terminated_marker|constructor].
Qed.

Lemma load_lines_terminated_witness :
  ∃ template,
    load_package_template Example.world (u "mit") (u "c") false = Ok template
    ∧ text_lines template
      = [ u "/*" ++ [LF]; u " * The MIT License" ++ [LF];
          u " * Copyright {{ year }} {{ organization }}" ++ [LF];
          u " */" ++ [LF] ].
Proof.
  refine (load_lines_terminated Example.world (u "c") (u "/*") (u " *") (u " */")
            (b "The MIT License" ++ [Byte.x0a] ++ Example.copyright
               ++ [Byte.x0a])
            [u "The MIT License" ++ [LF];
             u "Copyright {{ year }} {{ organization }}" ++ [LF]]
            (u "mit") false _ _ _ _ _ _).
  1-5: vm_compute; reflexivity.
  by_computation.
Defined.

(** X5.  When the last line of the template has no line break, the
    close marker follows it on the same line: the text the loader
    returns ends with one line made of the prefix, a space, that last
    line and the close marker. *)
Theorem load_lines_unterminated (w : World) (lang open prefix close : unicode)
    (data : bytes) (init : list unicode) (l : unicode) (license : unicode)
    (header : bool) :
  lang_cmt lang 0 = Ok open → lang_cmt lang 1 = Ok prefix →
  lang_cmt lang 2 = Ok close → decoded_lines data = Ok (init ++ [l]) →
  resource_stream w
    (if header then u "template-" ++ license ++ u "-header.txt"
     else u "template-" ++ license ++ u ".txt") = Some data →
  LF ∉ l →
  ∃ template,
    load_package_template w license lang header = Ok template
    ∧ text_lines template
      = (open ++ [LF]) :: prefixed prefix init
          ++ [prefix ++ [SPACE] ++ l ++ close ++ [LF]].
Proof.
  intros Ho Hp Hc Htexts Hres Hl.
  exists (decorate open prefix close (init ++ [l])). split.
  { unfold load_package_template. rewrite Hres. by apply write_template_Ok. }
  destruct (lang_cmt_plain _ _ _ Ho) as (_ & _ & Hno).
  destruct (lang_cmt_plain _ _ _ Hp) as (_ & _ & Hnp).
  destruct (lang_cmt_plain _ _ _ Hc) as (_ & _ & Hnc).
  apply decoded_lines_lines_of, lines_of_init in Htexts.
  set (ls := (open ++ [LF]) :: prefixed prefix init
               ++ [prefix ++ [SPACE] ++ l ++ close ++ [LF]]).
  assert (decorate open prefix close (init ++ [l]) = concat ls ++ []) as ->.
  { unfold decorate, ls, prefixed. cbn [concat].
    rewrite fmap_app, !concat_app. cbn [fmap list_fmap concat].
    by rewrite !app_nil_r, <-!(assoc_L (++)). }
  rewrite text_lines_terminated; [apply app_nil_r|].
  constructor; [by apply terminated_marker|].
  apply Forall_app. split; [by apply terminated_prefixed|].
  constructor; [|constructor].
  exists (prefix ++ [SPACE] ++ l ++ close).
  split; [by rewrite <-!(assoc_L (++))|].
  apply Forall_app. split; [by apply no_LF_Forall|].
  apply Forall_app. split; [by repeat constructor|].
  apply Forall_app. split; by apply no_LF_Forall.
Qed.

Lemma load_lines_unterminated_witness :
  ∃ template,
    load_package_template Example.world (u "plain") (u "c") false = Ok template
    ∧ text_lines template
      = [ u "/*" ++ [LF];
          u " * Copyright {{ year }} {{ organization }} */" ++ [LF] ].
Proof.
  refine (load_lines_unterminated Example.world (u "c") (u "/*") (u " *")
            (u " */") Example.copyright []
            (u "Copyright {{ year }} {{ organization }}")
            (u "plain") false _ _ _ _ _ _).
  1-5: vm_compute; reflexivity.
  by_computation.
Defined.

(** ** The errors of loading *)

Lemma lang_cmt_unknown (lang : unicode) (i : nat) :
  LANGS !! lang = None → lang_cmt lang i = Raise (KeyError lang).
Proof. intros H. unfold lang_cmt. by rewrite H. Qed.

Lemma write_template_unknown (lang : unicode) (data : bytes) (content : unicode) :
  LANGS !! lang = None → write_template lang data content = Raise (KeyError lang).
Proof.
  intros H. unfold write_template. rewrite (lang_cmt_unknown _ 0 H). reflexivity.
Qed.

Lemma decode_Raise (line : bytes) (e : exn) :
  decode line = Raise e → e = UnicodeDecodeError.
Proof.
  unfold decode. destruct (utf8_decode_N _); [by intros [=]|]. by intros [= <-].
Qed.

Lemma write_lines_decode_error (lang prefix : unicode) (lines : list bytes)
    (content : unicode) (line : bytes) (e : exn) :
  lang_cmt lang 1 = Ok prefix → line ∈ lines → decode line = Raise e →
  write_lines lang lines content = Raise UnicodeDecodeError.
Proof.
  intros Hp Hin Hline. revert content.
  induction lines as [|line0 lines IH]; intros content.
  { by apply elem_of_nil in Hin. }
  cbn. rewrite Hp. cbn.
  destruct (decode line0) as [text|e0] eqn:H0; cbn.
  - apply elem_of_cons in Hin as [->|Hin]; [congruence|]. by apply IH.
  - by apply decode_Raise in H0 as ->.
Qed.

(** X6.  The language is looked up only when the template is written:
    with a language that is not in the table, a loader raises its own
    error when it cannot open the template, and the [KeyError] of the
    language when it can; no mode of [main] writes anything then, and
    the run does not end with status 0. *)
Theorem unknown_language (w : World) (lang license path : unicode)
    (variant : bool) (argv : CommandLine) (args : Namespace) :
  LANGS !! lang = None →
  parse_args w argv = Ok args → language args = lang →
  load_package_template w license lang variant
  = match resource_stream w
            (if variant then u "template-" ++ license ++ u "-header.txt"
             else u "template-" ++ license ++ u ".txt") with
    | Some _ => Raise (KeyError lang)
    | None => Raise IOError
    end
  ∧ load_file_template w path lang
    = (if os_path_exists w path
       then match open_rb w (clean_path w path) with
            | Some _ => Raise (KeyError lang)
            | None => Raise IOError
            end
       else Raise (ValueError (u "path does not exist: " ++ path)))
  ∧ stdout (main w argv) = [] ∧ written (main w argv) = []
  ∧ exit_code (main w argv) = 1.
Proof.
  intros Hlang Hargs Hl.
  assert (∀ license (hdr : bool),
            load_package_template w license lang hdr
            = match resource_stream w
                      (if hdr then u "template-" ++ license ++ u "-header.txt"
                       else u "template-" ++ license ++ u ".txt") with
              | Some _ => Raise (KeyError lang)
              | None => Raise IOError
              end) as Hpkg.
  { intros license' hdr. unfold load_package_template.
    destruct (resource_stream w _); [|done]. by apply write_template_unknown. }
  assert (∀ path,
            load_file_template w path lang
            = (if os_path_exists w path
               then match open_rb w (clean_path w path) with
                    | Some _ => Raise (KeyError lang)
                    | None => Raise IOError
                    end
               else Raise (ValueError (u "path does not exist: " ++ path)))) as Hfile.
  { intros path'. unfold load_file_template.
    destruct (os_path_exists w path'); [|done]. cbn.
    destruct (open_rb w _); [|done]. by apply write_template_unknown. }
  split; [apply Hpkg|]. split; [apply Hfile|].
  unfold exit_code, main. rewrite Hargs.
  unfold load_header_template, load_template. rewrite Hl.
  destruct (header args), (list_vars args),
    (truthy (template_path args)) as [p|];
    rewrite ?Hpkg, ?Hfile;
    try destruct (resource_stream w _);
    try destruct (os_path_exists w p);
    try destruct (open_rb w _);
    done.
Qed.

Lemma unknown_language_witness :
  let argv :=
    {| arg_license := None; opt_header := false; opt_org := None;
       opt_proj := None; opt_template := Some (u "notice.txt");
       opt_year := None; opt_language := Some (u "go"); opt_file := None;
       opt_vars := false |} in
  load_file_template Example.world (u "notice.txt") (u "go")
  = Raise (KeyError (u "go"))
  ∧ stdout (main Example.world argv) = []
  ∧ exit_code (main Example.world argv) = 1.
Proof.
  intros argv.
  refine (let H := unknown_language Example.world (u "go") (u "mit")
    (u "notice.txt") false argv
    {| license := None; header := false; organization := u "alice";
       project := u "lice"; template_path := Some (u "notice.txt");
       year := u "2024"; language := u "go"; ofile := u "stdout";
       list_vars := false |} _ _ _ in
    conj (proj1 (proj2 H))
      (conj (proj1 (proj2 (proj2 H))) (proj2 (proj2 (proj2 (proj2 H)))))).
  all: vm_compute; reflexivity.
Defined.

(** X7.  A template with a line that is no UTF-8 is refused as a
    whole: for a language of the table, either loader raises
    [UnicodeDecodeError], whichever line it is. *)
Theorem load_invalid_utf8 (w : World) (lang name : unicode) (data : bytes)
    (line : bytes) (license path : unicode) (variant : bool) :
  LANGS !! lang = Some name →
  line ∈ readlines data → decode line = Raise UnicodeDecodeError →
  resource_stream w
    (if variant then u "template-" ++ license ++ u "-header.txt"
     else u "template-" ++ license ++ u ".txt") = Some data →
  os_path_exists w path = true → open_rb w (clean_path w path) = Some data →
  load_package_template w license lang variant = Raise UnicodeDecodeError
  ∧ load_file_template w path lang = Raise UnicodeDecodeError.
Proof.
  intros Hlang Hin Hline Hres Hex Hopen.
  destruct (lang_cmt_LANGS _ _ Hlang)
    as (open & prefix & close & _ & Ho & Hp & Hc).
  assert (∀ content, write_template lang data content = Raise UnicodeDecodeError)
    as Hw.
  { intros content. unfold write_template. rewrite Ho. cbn.
    rewrite (write_lines_decode_error _ _ _ _ _ _ Hp Hin Hline). reflexivity. }
  split.
  - unfold load_package_template. rewrite Hres. apply Hw.
  - unfold load_file_template. rewrite Hex, Hopen. apply Hw.
Qed.

Lemma load_invalid_utf8_witness :
  load_package_template Scenario.latin1_world (u "old") (u "txt") false
  = Raise UnicodeDecodeError
  ∧ load_file_template Scenario.latin1_world (u "old.txt") (u "txt")
    = Raise UnicodeDecodeError.
Proof.
  refine (load_invalid_utf8 Scenario.latin1_world (u "txt") (u "text")
            (b "License" ++ [Byte.x0a; Byte.xa9] ++ b " 2024" ++ [Byte.x0a])
            (Byte.xa9 :: b " 2024" ++ [Byte.x0a])
            (u "old") (u "old.txt") false _ _ _ _ _ _).
  - vm_compute. reflexivity.
  - vm_compute. apply list_elem_of_further, list_elem_of_here.
  - vm_compute. reflexivity.
  - vm_compute. reflexivity.
  - reflexivity.
  - reflexivity.
Defined.

(** ** The context *)

Lemma substitute_ext (keys : list unicode)
    (context context' : gmap unicode unicode) (content : unicode) :
  (∀ key, key ∈ keys → context !! key = context' !! key) →
  substitute keys context content = substitute keys context' content.
Proof.
  revert content. induction keys as [|key keys IH]; intros content Hagree; [done|].
  cbn. rewrite <-(Hagree key) by by left.
  destruct (context !! key); [|done]. apply IH.
  intros k Hk. apply Hagree. by right.
Qed.

(** X8.  Rendering looks only at the variables of the template: two
    contexts that agree on them give the same result, the same text or
    the same error. *)
Theorem render_context_ext (template : unicode)
    (context context' : gmap unicode unicode) :
  (∀ key, occurs key template → context !! key = context' !! key) →
  generate_license template context = generate_license template context'.
Proof.
  intros Hagree. unfold generate_license.
  rewrite (substitute_ext _ context context'); [done|].
  intros key Hkey. by apply Hagree, elem_of_finditer, elem_of_extract_vars.
Qed.

Lemma render_context_ext_witness :
  generate_license (u "(c) {{ year }}") Example.context
  = generate_license (u "(c) {{ year }}") {[ u "year" := u "2024" ]}.
Proof.
  refine (render_context_ext _ _ _ _).
  intros key Hkey%elem_of_finditer. vm_compute in Hkey.
  apply list_elem_of_singleton in Hkey as ->. vm_compute. reflexivity.
Defined.

Lemma get_context_lookup (args : Namespace) (key : unicode) :
  get_context args !! key
  = if decide (key = u "year") then Some (year args)
    else if decide (key = u "organization") then Some (organization args)
    else if decide (key = u "project") then Some (project args)
    else None.
Proof.
  unfold get_context. cbn [list_to_map foldr uncurry fst snd].
  repeat case_decide; subst; simplify_map_eq; done.
Qed.

Lemma get_context_missing (args : Namespace) (key : unicode) :
  missing (get_context args) key ↔ ¬ standard_variable key.
Proof.
  unfold missing, standard_variable. rewrite get_context_lookup.
  repeat case_decide; subst; intuition congruence.
Qed.

(** X9.  The context of a run has the three variables [year],
    [organization] and [project] and no other: a run that renders a
    template with the placeholder of any other variable writes nothing
    and ends with the error that names such a variable, with
    status 1. *)
Theorem main_other_variable (w : World) (argv : CommandLine) (args : Namespace)
    (template key : unicode) :
  parse_args w argv = Ok args →
  header args = true ∨ list_vars args = false →
  loaded_template w args = Some template →
  occurs key template → ¬ standard_variable key →
  get_context args !! u "year" = Some (year args)
  ∧ get_context args !! u "organization" = Some (organization args)
  ∧ get_context args !! u "project" = Some (project args)
  ∧ stdout (main w argv) = [] ∧ written (main w argv) = []
  ∧ exit_code (main w argv) = 1
  ∧ ∃ k, occurs k template ∧ ¬ standard_variable k
         ∧ status (main w argv) = Raise (missing_variable k).
Proof.
  intros Hargs Hmode Hload Hocc Hkey.
  split; [by rewrite get_context_lookup|].
  split; [by rewrite get_context_lookup|].
  split; [by rewrite get_context_lookup|].
  apply elem_of_finditer, elem_of_extract_vars in Hocc.
  apply (get_context_missing args) in Hkey.
  destruct (substitute_missing _ _ template _ Hocc Hkey)
    as (k & Hk & Hkin & Hkmiss & _).
  assert (generate_license template (get_context args)
          = Raise (missing_variable k)) as Hgen.
  { unfold generate_license. by rewrite Hk. }
  unfold exit_code.
  rewrite (main_render_failure _ _ _ _ _ Hargs Hmode Hload Hgen). cbn.
  split; [done|]. split; [done|]. split; [done|].
  exists k. split; [by apply elem_of_finditer, elem_of_extract_vars|].
  split; [by apply (get_context_missing args)|done].
Qed.

Lemma main_other_variable_witness :
  stdout (main Example.world Example.draft_command_line) = []
  ∧ exit_code (main Example.world Example.draft_command_line) = 1.
Proof.
  refine (let H := main_other_variable Example.world Example.draft_command_line
    {| license := None; header := false; organization := u "alice";
       project := u "lice"; template_path := Some (u "draft.txt");
       year := u "2024"; language := u "txt"; ofile := u "stdout";
       list_vars := false |}
    (LF :: u " {{ title }} by {{ author }}, {{ year }}" ++ [LF])
    (u "title") _ _ _ _ _ in
    conj (proj1 (proj2 (proj2 (proj2 H))))
         (proj1 (proj2 (proj2 (proj2 (proj2 (proj2 H))))))).
  - vm_compute. reflexivity.
  - right. reflexivity.
  - vm_compute. reflexivity.
  - apply elem_of_finditer. by_computation.
  - intros [H|[H|H]]; discriminate H.
Defined.

(** ** The modes of [main] *)

Lemma vars_report_line (name : unicode) (var_list : list unicode)
    (context : gmap unicode unicode) (key : unicode) :
  key ∈ var_list →
  ∃ pre post,
    vars_report name var_list context
    = pre ++ match context !! key with
             | Some x => u "  " ++ key ++ u " = " ++ x ++ [LF]
             | None => u "  " ++ key ++ [LF]
             end ++ post.
Proof.
  intros (l1 & l2 & ->)%list_elem_of_split. unfold vars_report.
  destruct (l1 ++ key :: l2) as [|v vs] eqn:Heq.
  { by destruct l1. }
  rewrite <-Heq, bind_app, bind_cons.
  set (line v := match context !! v with
                 | Some x => u "  " ++ v ++ u " = " ++ x ++ [LF]
                 | None => u "  " ++ v ++ [LF]
                 end).
  exists (u "The " ++ name
            ++ u " license template contains the following variables and defaults:"
            ++ [LF] ++ (l1 ≫= line)), (l2 ≫= line).
  by rewrite <-!(assoc_L (++)).
Qed.

(** X10.  The [--vars] mode without [--header]: when the template
    loads, the run writes a report to the standard output and exits
    with status 0, whatever variables the context lacks.  For a
    template without placeholder the report is the one line that says
    so; otherwise it has a line for every variable of the template,
    with the value for a variable of the context and the bare name for
    any other. *)
Theorem vars_mode (w : World) (argv : CommandLine) (args : Namespace)
    (template : unicode) :
  parse_args w argv = Ok args →
  header args = false → list_vars args = true →
  load_template w args = Ok template →
  let name := or_default (truthy (template_path args)) (license_of args) in
  status (main w argv) = Raise (SystemExit 0)
  ∧ stderr (main w argv) = [] ∧ written (main w argv) = []
  ∧ (no_placeholder template →
     stdout (main w argv)
     = u "The " ++ name ++ u " license template contains no variables." ++ [LF])
  ∧ (∀ key value, occurs key template →
       get_context args !! key = Some value →
       ∃ pre post,
         stdout (main w argv)
         = pre ++ u "  " ++ key ++ u " = " ++ value ++ [LF] ++ post)
  ∧ (∀ key, occurs key template → ¬ standard_variable key →
       ∃ pre post, stdout (main w argv) = pre ++ u "  " ++ key ++ [LF] ++ post).
Proof.
  intros Hargs Hheader Hvars Hload name. unfold main.
  rewrite Hargs, Hheader, Hvars, Hload. cbn [status stderr written stdout].
  fold name.
  split; [done|]. split; [done|]. split; [done|]. split; [|split].
  - intros Hno%finditer_nil_iff. by rewrite (extract_vars_nil _ Hno).
  - intros key value Hocc%elem_of_finditer%elem_of_extract_vars Hvalue.
    destruct (vars_report_line name _ (get_context args) _ Hocc)
      as (pre & post & Heq).
    rewrite Hvalue in Heq. exists pre, post. rewrite Heq.
    by rewrite <-!(assoc_L (++)).
  - intros key Hocc%elem_of_finditer%elem_of_extract_vars
      Hkey%(get_context_missing args).
    destruct (vars_report_line name _ (get_context args) _ Hocc)
      as (pre & post & Heq).
    rewrite Hkey in Heq. exists pre, post. rewrite Heq.
    by rewrite <-!(assoc_L (++)).
Qed.

Lemma vars_mode_witness :
  let run :=
    main Example.world (with_mode Example.draft_command_line false true None) in
  status run = Raise (SystemExit 0)
  ∧ ∃ pre post, stdout run = pre ++ u "  author" ++ [LF] ++ post.
Proof.
  intros run.
  pose proof (vars_mode Example.world
    (with_mode Example.draft_command_line false true None)
    {| license := None; header := false; organization := u "alice";
       project := u "lice"; template_path := Some (u "draft.txt");
       year := u "2024"; language := u "txt"; ofile := u "stdout";
       list_vars := true |}
    (LF :: u " {{ title }} by {{ author }}, {{ year }}" ++ [LF])
    ltac:(vm_compute; reflexivity) eq_refl eq_refl
    ltac:(vm_compute; reflexivity)) as (Hstatus & _ & _ & _ & _ & Hline).
  split; [exact Hstatus|].
  apply (Hline (u "author")).
  - apply elem_of_finditer. by_computation.
  - intros [H|[H|H]]; discriminate H.
Defined.

(** X11.  [--header] comes first: in the header mode the options
    [--vars] and [-f] change nothing of the run. *)
Theorem header_mode_first (w : World) (argv : CommandLine)
    (vars : bool) (file : option unicode) :
  opt_header argv = true →
  main w (with_mode argv true vars file) = main w argv.
Proof.
  intros Hheader. destruct argv as [lic hdr org proj tpl yr lng fl vs].
  cbn in Hheader. subst hdr. unfold main, parse_args, with_mode. cbn.
  destruct (guess_organization w) as [default_org|]; [|done]. cbn.
  destruct (match lic with Some _ => _ | None => _ end); [|done]. cbn.
  by destruct (valid_year _).
Qed.

Lemma header_mode_first_witness :
  main Example.world
    (with_mode Example.mit_header_command_line true true (Some (u "LICENSE")))
  = main Example.world Example.mit_header_command_line.
Proof.
  refine (header_mode_first Example.world Example.mit_header_command_line
            true (Some (u "LICENSE")) _).
  reflexivity.
Defined.

Lemma parse_args_fields (w : World) (argv : CommandLine) (args : Namespace) :
  parse_args w argv = Ok args →
  license args = arg_license argv ∧ header args = opt_header argv
  ∧ list_vars args = opt_vars argv ∧ template_path args = opt_template argv
  ∧ language args = or_default (opt_language argv) (u "txt")
  ∧ ofile args = or_default (opt_file argv) (u "stdout")
  ∧ valid_year (or_default (opt_year argv) (format_i (date_today_year w)))
    = Some (year args).
Proof.
  unfold parse_args.
  destruct (guess_organization w) as [default_org|]; [|done]. cbn.
  destruct (match arg_license argv with Some _ => _ | None => _ end);
    [|done]. cbn.
  destruct (valid_year _) as [y|]; [|done]. by intros [= <-].
Qed.




(** X14.  A template path takes the place of the license and of the
    header variant: with [-t] and without [-f], the header mode and
    the default mode load the same file, write the same text and give
    the same exit status. *)
Theorem template_path_overrides (w : World) (argv : CommandLine)
    (path : unicode) :
  truthy (opt_template argv) = Some path →
  let header_run := main w (with_mode argv true false None) in
  let default_run := main w (with_mode argv false false None) in
  stdout header_run = stdout default_run
  ∧ stderr header_run = stderr default_run
  ∧ written header_run = written default_run
  ∧ exit_code header_run = exit_code default_run.
Proof.
  intros Hpath. destruct argv as [lic hdr org proj tpl yr lng fl vs].
  cbn in Hpath. unfold exit_code, main, parse_args, with_mode. cbn.
  destruct (guess_organization w) as [default_org|]; [|done]. cbn.
  destruct (match lic with Some _ => _ | None => _ end); [|done]. cbn.
  destruct (valid_year _) as [y|]; [|done]. cbn.
  unfold load_header_template, load_template. cbn. rewrite Hpath.
  destruct (load_file_template w path _) as [t|e]; [|done].
  by destruct (generate_license t _).
Qed.

Lemma template_path_overrides_witness :
  stdout (main Example.world (with_mode Scenario.notice_command_line true false None))
  = stdout (main Example.world (with_mode Scenario.notice_command_line false false None)).
Proof.
  refine (proj1 (template_path_overrides Example.world
                   Scenario.notice_command_line (u "notice.txt") _)).
  reflexivity.
Defined.

(** ** The organization and the year *)

Lemma lstrip_spaces (ws s : bytes) :
  Forall (λ c, is_space c = true) ws → lstrip (ws ++ s) = lstrip s.
Proof. induction 1 as [|c ws Hc _ IH]; [done|]. cbn. by rewrite Hc. Qed.

Lemma lstrip_nil_spaces (ws : bytes) :
  Forall (λ c, is_space c = true) ws → lstrip ws = [].
Proof. intros H. by rewrite <-(app_nil_r ws), lstrip_spaces. Qed.

Lemma lstrip_head (c : byte) (s : bytes) :
  is_space c = false → lstrip (c :: s) = c :: s.
Proof. intros H. cbn. by rewrite H. Qed.

(** [strip] takes the white space from both ends and nothing else. *)
Lemma strip_spaces (ws1 name ws2 : bytes) :
  Forall (λ c, is_space c = true) ws1 → Forall (λ c, is_space c = true) ws2 →
  trimmed name → strip (ws1 ++ name ++ ws2) = name.
Proof.
  intros H1 H2 Hname. unfold strip. rewrite lstrip_spaces by done.
  destruct name as [|c name].
  { cbn [app]. rewrite (lstrip_nil_spaces ws2) by done. reflexivity. }
  destruct Hname as (Hc & s' & d & Heq & Hd).
  rewrite <-app_comm_cons, lstrip_head by done.
  rewrite app_comm_cons, reverse_app, lstrip_spaces by by apply Forall_reverse.
  rewrite Heq, reverse_snoc, lstrip_head by done.
  by rewrite <-reverse_snoc, reverse_involutive.
Qed.

(** X15.  The organization that [git] knows is returned without the
    white space around it, the line break [git] ends it with among it;
    an answer of white space only gives the empty organization, not the
    name of the user. *)
Theorem guess_organization_strips (w : World) (ws1 name ws2 : bytes) :
  check_output w git_config_get_user_name = Ok (ws1 ++ name ++ ws2) →
  Forall (λ c, is_space c = true) ws1 → Forall (λ c, is_space c = true) ws2 →
  trimmed name →
  guess_organization w = decode name
  ∧ (name = [] → guess_organization w = Ok []).
Proof.
  intros Hout H1 H2 Hname.
  assert (guess_organization w = decode name) as Hguess.
  { unfold guess_organization. rewrite Hout. cbn.
    by rewrite strip_spaces. }
  split; [done|]. intros ->. by rewrite Hguess.
Qed.

Lemma guess_organization_strips_witness :
  guess_organization
    (Scenario.git_world (Ok (b "Alice Smith" ++ [Byte.x0a])))
  = Ok (u "Alice Smith")
  ∧ guess_organization (Scenario.git_world (Ok [Byte.x20; Byte.x0a])) = Ok [].
Proof.
  split.
  - refine (proj1 (guess_organization_strips
                     (Scenario.git_world (Ok (b "Alice Smith" ++ [Byte.x0a])))
                     [] (b "Alice Smith") [Byte.x0a] eq_refl _ _ _)).
    + constructor.
    + by repeat constructor.
    + split; [reflexivity|]. exists (b "Alice Smit"), Byte.x68. by split.
  - refine (proj2 (guess_organization_strips
                     (Scenario.git_world (Ok [Byte.x20; Byte.x0a]))
                     [Byte.x20; Byte.x0a] [] [] eq_refl _ _ _) eq_refl).
    + by repeat constructor.
    + constructor.
    + exact I.
Defined.

(** X16.  The organization is looked up before the command line is
    read: when [git] answers with bytes that are no UTF-8, every run
    ends with [UnicodeDecodeError] and writes nothing, also a run with
    the [-o] option. *)
Theorem organization_not_utf8 (w : World) (out : bytes) (argv : CommandLine) :
  check_output w git_config_get_user_name = Ok out →
  utf8_decode_N (Byte.to_N <$> strip out) = None →
  guess_organization w = Raise UnicodeDecodeError
  ∧ main w argv = uncaught UnicodeDecodeError
  ∧ stdout (main w argv) = [] ∧ written (main w argv) = []
  ∧ exit_code (main w argv) = 1.
Proof.
  intros Hout Hdec.
  assert (guess_organization w = Raise UnicodeDecodeError) as Hguess.
  { unfold guess_organization. rewrite Hout. cbn. unfold decode.
    by rewrite Hdec. }
  assert (main w argv = uncaught UnicodeDecodeError) as Hmain.
  { unfold main, parse_args. by rewrite Hguess. }
  split; [done|]. split; [done|]. by rewrite Hmain.
Qed.

Lemma organization_not_utf8_witness :
  main (Scenario.git_world (Ok [Byte.xe9; Byte.x0a]))
    {| arg_license := Some (u "mit"); opt_header := false;
       opt_org := Some (u "Acme"); opt_proj := None; opt_template := None;
       opt_year := None; opt_language := None; opt_file := None;
       opt_vars := false |}
  = uncaught UnicodeDecodeError.
Proof.
  refine (proj1 (proj2 (organization_not_utf8 _ [Byte.xe9; Byte.x0a] _ _ _))).
  - reflexivity.
  - vm_compute. reflexivity.
Defined.

Lemma valid_year_inv (s y : unicode) :
  valid_year s = Some y →
  y = s ∧ ∃ a b c d,
    is_digit a = true ∧ is_digit b = true ∧ is_digit c = true
    ∧ is_digit d = true ∧ (s = [a; b; c; d] ∨ s = [a; b; c; d; LF]).
Proof.
  unfold valid_year.
  destruct s as [|a [|b [|c [|d [|e [|f s]]]]]]; try done.
  - destruct (is_digit a && is_digit b && is_digit c && is_digit d) eqn:H;
      [|done].
    intros [= <-]. split; [done|]. exists a, b, c, d.
    apply andb_true_iff in H as [[[??]%andb_true_iff ?]%andb_true_iff ?].
    repeat split; try done. by left.
  - destruct (is_digit a && is_digit b && is_digit c && is_digit d && (e =? LF))
      eqn:H; [|done].
    intros [= <-]. split; [done|]. exists a, b, c, d.
    apply andb_true_iff in H
      as [[[[??]%andb_true_iff ?]%andb_true_iff ?]%andb_true_iff ->%N.eqb_eq].
    repeat split; try done. by right.
Qed.

Lemma default_year_valid (n : N) :
  1000 ≤ n ≤ 9999 → valid_year (format_i n) = Some (format_i n).
Proof.
  intros Hn.
  set (ds := [0; 1; 2; 3; 4; 5; 6; 7; 8; 9]).
  assert (∀ x, x < 10 → In x ds) as Hds.
  { intros x Hx.
    assert (x = 0 ∨ x = 1 ∨ x = 2 ∨ x = 3 ∨ x = 4 ∨ x = 5 ∨ x = 6 ∨ x = 7
            ∨ x = 8 ∨ x = 9) as Hcases by lia.
    unfold ds. destruct_or!; subst x; cbn; tauto. }
  assert (forallb (λ a, forallb (λ b, forallb (λ c, forallb (λ d,
            bool_decide (a = 0 ∨
              valid_year (format_i (1000 * a + 100 * b + 10 * c + d))
              = Some (format_i (1000 * a + 100 * b + 10 * c + d))))
            ds) ds) ds) ds = true) as Hall
    by (vm_compute; reflexivity).
  pose proof (N.div_mod n 1000 ltac:(done)) as Ha.
  pose proof (N.mod_lt n 1000 ltac:(done)) as Ha'.
  pose proof (N.div_mod (n mod 1000) 100 ltac:(done)) as Hb.
  pose proof (N.mod_lt (n mod 1000) 100 ltac:(done)) as Hb'.
  pose proof (N.div_mod (n mod 1000 mod 100) 10 ltac:(done)) as Hc.
  pose proof (N.mod_lt (n mod 1000 mod 100) 10 ltac:(done)) as Hc'.
  set (a := n / 1000) in *. set (r := n mod 1000) in *.
  set (b := r / 100) in *. set (r' := r mod 100) in *.
  set (c := r' / 10) in *. set (d := r' mod 10) in *.
  rewrite forallb_forall in Hall. specialize (Hall a (Hds a ltac:(lia))).
  rewrite forallb_forall in Hall. specialize (Hall b (Hds b ltac:(lia))).
  rewrite forallb_forall in Hall. specialize (Hall c (Hds c ltac:(lia))).
  rewrite forallb_forall in Hall. specialize (Hall d (Hds d ltac:(lia))).
  apply bool_decide_eq_true_1 in Hall as [Hzero|Hall]; [lia|].
  by replace n with (1000 * a + 100 * b + 10 * c + d) by lia.
Qed.

(** X17.  The year of the context is the value of [-y] as it was
    given, or else the current year in decimal digits, and it is four
    digits, with at most a line break behind them; without [-y] the
    parser accepts the current year whenever it has four digits. *)
Theorem year_of_context (w : World) (argv : CommandLine) (args : Namespace) :
  parse_args w argv = Ok args →
  year args = or_default (opt_year argv) (format_i (date_today_year w))
  ∧ get_context args !! u "year" = Some (year args)
  ∧ (∃ a b c d,
       is_digit a = true ∧ is_digit b = true ∧ is_digit c = true
       ∧ is_digit d = true
       ∧ (year args = [a; b; c; d] ∨ year args = [a; b; c; d; LF]))
  ∧ (1000 ≤ date_today_year w ≤ 9999 →
     valid_year (format_i (date_today_year w))
     = Some (format_i (date_today_year w))).
Proof.
  intros Hargs.
  destruct (parse_args_fields _ _ _ Hargs) as (_ & _ & _ & _ & _ & _ & Hyear).
  apply valid_year_inv in Hyear as [Hy Hdigits].
  split; [done|]. split; [by rewrite get_context_lookup|].
  split; [by rewrite Hy|]. apply default_year_valid.
Qed.

Lemma year_of_context_witness :
  get_context
    {| license := None; header := false; organization := u "alice";
       project := u "lice"; template_path := None;
       year := u "2024"; language := u "txt"; ofile := u "stdout";
       list_vars := false |} !! u "year" = Some (u "2024").
Proof.
  refine (proj1 (proj2 (year_of_context Example.world Example.command_line _ _))).
  vm_compute. reflexivity.
Defined.

(** X18.  A template whose placeholders are all of the three variables
    of the context always renders: [generate_license] returns the text
    with the replacements made, and a run in the default mode without
    [-f] writes it to the standard output. *)
Theorem standard_variables_render (w : World) (argv : CommandLine)
    (args : Namespace) (template : unicode) :
  parse_args w argv = Ok args →
  header args = false → list_vars args = false → opt_file argv = None →
  load_template w args = Ok template →
  (∀ key, occurs key template → standard_variable key) →
  let content :=
    replace_each (extract_vars template) (get_context args) template in
  generate_license template (get_context args) = Ok content
  ∧ stdout (main w argv) = content ∧ status (main w argv) = Ok ().
Proof.
  intros Hargs Hheader Hvars Hfile Hload Hstd content.
  destruct (parse_args_fields _ _ _ Hargs) as (_ & _ & _ & _ & _ & Hofile & _).
  rewrite Hfile in Hofile. cbn in Hofile.
  assert (generate_license template (get_context args) = Ok content) as Hgen.
  { apply generate_license_Ok. intros key Hkey Hmiss.
    apply (get_context_missing args) in Hmiss. apply Hmiss, Hstd.
    by apply elem_of_finditer, elem_of_extract_vars. }
  split; [done|]. unfold main.
  rewrite Hargs, Hheader, Hvars, Hload, Hgen, Hofile.
  by case_decide.
Qed.

Lemma standard_variables_render_witness :
  stdout (main Example.world Scenario.notice_command_line)
  = LF :: u " For lice." ++ [LF; LF].
Proof.
  refine (proj1 (proj2 (standard_variables_render Example.world
    Scenario.notice_command_line
    {| license := None; header := false; organization := u "alice";
       project := u "lice"; template_path := Some (u "notice.txt");
       year := u "2024"; language := u "txt"; ofile := u "stdout";
       list_vars := false |}
    (LF :: u " For {{ project }}." ++ [LF; LF]) _ _ _ _ _ _))).
  1,5: vm_compute; reflexivity.
  1-3: reflexivity.
  intros key Hkey%elem_of_finditer. vm_compute in Hkey.
  apply list_elem_of_singleton in Hkey as ->. right. right. reflexivity.
Defined.
